(** * ArogyaAI front end: the query gateway and the chat controller

    A shallow embedding of

    - [ApiClient.fetchWithTimeout] and [ApiClient.query]
      (frontend/src/lib/api.ts, the retrying version),
    - [Chat.handleSendMessage] and [Chat.handleSelectQuery]
      (frontend/src/components/Chat.tsx),
    - [ChatInput.handleSend] (frontend/src/components/ChatInput.tsx),

    together with the properties of the specification that concern them.

    JavaScript strings are sequences of UTF-16 code units; promises are
    modelled by the logical time after which they settle (or by [Never]);
    an [async] function is a run that records the network calls and
    timers it starts, the logical time it spends suspended and how it
    ends. *)

From Stdlib Require Import List Arith NArith Bool Ascii String Lia.
From Stdlib Require DecimalString.
Import ListNotations.

Local Open Scope N_scope.
Local Open Scope list_scope.

(* ===================================================================== *)
(** ** JavaScript strings *)
(* ===================================================================== *)

Module JsString.

(** One UTF-16 code unit. *)
Definition code_unit := N.

Definition jsstring := list code_unit.

(** An ASCII literal of the source, as code units. *)
Definition js (s : string) : jsstring :=
  map N_of_ascii (list_ascii_of_string s).

(** [p] is a prefix of [s]: [s.startsWith(p)]. *)
Fixpoint startsWith (s p : jsstring) : bool :=
  match p, s with
  | [], _ => true
  | _ :: _, [] => false
  | a :: p', b :: s' => (a =? b) && startsWith s' p'
  end.

(** [s.includes(p)]: [p] occurs in [s] as a contiguous run. *)
Fixpoint includes (s p : jsstring) : bool :=
  startsWith s p ||
  match s with
  | [] => false
  | _ :: s' => includes s' p
  end.

(** [a === b] on strings. *)
Fixpoint eqb (a b : jsstring) : bool :=
  match a, b with
  | [], [] => true
  | x :: a', y :: b' => (x =? y) && eqb a' b'
  | _, _ => false
  end.

(** ECMAScript WhiteSpace and LineTerminator code points, the ones
    [String.prototype.trim] strips. *)
Definition isWhiteSpace (c : code_unit) : bool :=
  (c =? 9) || (c =? 10) || (c =? 11) || (c =? 12) || (c =? 13) ||
  (c =? 32) || (c =? 160) || (c =? 5760) ||
  ((8192 <=? c) && (c <=? 8202)) ||
  (c =? 8232) || (c =? 8233) || (c =? 8239) || (c =? 8287) ||
  (c =? 12288) || (c =? 65279).

Fixpoint trimStart (s : jsstring) : jsstring :=
  match s with
  | [] => []
  | c :: s' => if isWhiteSpace c then trimStart s' else s
  end.

Definition trimEnd (s : jsstring) : jsstring := rev (trimStart (rev s)).

Definition trim (s : jsstring) : jsstring := trimEnd (trimStart s).

(** Truthiness of a string: the empty string is falsy. *)
Definition truthy (s : jsstring) : bool :=
  match s with [] => false | _ :: _ => true end.

(** Truthiness of an optional string property: [undefined] is falsy. *)
Definition truthy_opt (o : option jsstring) : bool :=
  match o with Some s => truthy s | None => false end.

(** [o || d] for an optional string property and a string default. *)
Definition or_else (o : option jsstring) (d : jsstring) : jsstring :=
  match o with
  | Some s => if truthy s then s else d
  | None => d
  end.

(** [`${n}`] for a non-negative integer. *)
Definition ofN (n : N) : jsstring :=
  js (DecimalString.NilEmpty.string_of_uint (N.to_uint n)).

End JsString.

Import JsString.

(* ===================================================================== *)
(** ** Promises and async runs *)
(* ===================================================================== *)

(** The built-in [Error] object, as far as the code reads it. *)
Record Error := mkError { name : jsstring; message : jsstring }.

(** [new Error(msg)]. *)
Definition new_Error (msg : jsstring) : Error := mkError (js "Error") msg.

(** What a [throw] or a rejection can carry: an [Error] instance, or a
    value for which [instanceof Error] is false. *)
Inductive Thrown :=
| ThrowError (e : Error)
| ThrowOther.

Inductive Settled (A : Type) :=
| Resolved (a : A)
| Rejected (e : Thrown).
Arguments Resolved {A} a.
Arguments Rejected {A} e.

(** An environment promise: it settles [after] milliseconds, or never. *)
Inductive Promise (A : Type) :=
| Settles (after : N) (s : Settled A)
| Never.
Arguments Settles {A} after s.
Arguments Never {A}.

(** What a run of the gateway starts. *)
Inductive Event :=
| EvFetch (timeoutMs : N)   (* a fetch guarded by an abort timer *)
| EvDelay (ms : N).         (* [setTimeout(resolve, ms)] awaited *)

Inductive Outcome (A : Type) :=
| Returned (a : A)
| Threw (e : Thrown)
| Pending.                  (* suspended on a promise that never settles *)
Arguments Returned {A} a.
Arguments Threw {A} e.
Arguments Pending {A}.

Record Async (A : Type) := mkRun {
  trace : list Event;
  elapsed : N;
  outcome : Outcome A
}.
Arguments mkRun {A} trace elapsed outcome.
Arguments trace {A} _.
Arguments elapsed {A} _.
Arguments outcome {A} _.

Module AsyncM.

Definition ret {A} (a : A) : Async A := mkRun [] 0 (Returned a).

Definition throw {A} (e : Thrown) : Async A := mkRun [] 0 (Threw e).

Definition bind {A B} (r : Async A) (k : A -> Async B) : Async B :=
  match outcome r with
  | Returned a =>
      let r' := k a in
      mkRun (trace r ++ trace r') (elapsed r + elapsed r') (outcome r')
  | Threw e => mkRun (trace r) (elapsed r) (Threw e)
  | Pending => mkRun (trace r) (elapsed r) Pending
  end.

(** [try { r } catch (error) { h error }]. *)
Definition catch {A} (r : Async A) (h : Thrown -> Async A) : Async A :=
  match outcome r with
  | Threw e =>
      let r' := h e in
      mkRun (trace r ++ trace r') (elapsed r + elapsed r') (outcome r')
  | _ => r
  end.

(** [await p]. *)
Definition await {A} (p : Promise A) : Async A :=
  match p with
  | Settles t (Resolved a) => mkRun [] t (Returned a)
  | Settles t (Rejected e) => mkRun [] t (Threw e)
  | Never => mkRun [] 0 Pending
  end.

Definition log (ev : Event) : Async unit := mkRun [ev] 0 (Returned tt).

(** [await new Promise(resolve => setTimeout(resolve, ms))]. *)
Definition delay (ms : N) : Async unit := mkRun [EvDelay ms] ms (Returned tt).

End AsyncM.

Import AsyncM.

Declare Scope async_scope.
Delimit Scope async_scope with async.
Notation "x <- c ;; k" := (bind c (fun x => k))
  (at level 61, c at next level, right associativity) : async_scope.
Notation "c ;; k" := (bind c (fun _ => k))
  (at level 61, right associativity) : async_scope.
Local Open Scope async_scope.

(* ===================================================================== *)
(** ** The wire types (frontend/src/types/api.ts) *)
(* ===================================================================== *)

Record QueryRequest := mkRequest {
  query_text : jsstring;          (* [query] *)
  user_id : option jsstring
}.

(** A decoded JSON body.  The fields of [QueryResponse] that the code
    reads, and [detail], which [query] reads from an error body. *)
Record QueryResponse := mkResponse {
  status : option jsstring;
  response : option jsstring;
  message_ : option jsstring;     (* [message] *)
  detected_language : option jsstring;
  was_translated : option bool;
  detail : option jsstring
}.

(** [{}]. *)
Definition empty_object : QueryResponse :=
  mkResponse None None None None None None.

(** A Fetch API [Response]: the status line, and the promise that
    [response.json()] returns. *)
Record Response := mkHttp {
  http_status : N;
  body : Promise QueryResponse
}.

(** [response.ok]: the status is in the range 200-299. *)
Definition ok (r : Response) : bool :=
  (200 <=? http_status r) && (http_status r <=? 299).

(** The network as seen by one [fetch] call: what the call would do if
    nothing aborted it.  A transport says this for each request and each
    attempt number. *)
Definition Transport := QueryRequest -> N -> Promise Response.

(* ===================================================================== *)
(** ** ApiClient (frontend/src/lib/api.ts) *)
(* ===================================================================== *)

Module ApiClient.

(** The rejection of a fetch whose signal was aborted: a DOMException
    named AbortError, which is an instance of Error. *)
Definition AbortError : Thrown :=
  ThrowError (mkError (js "AbortError") (js "signal is aborted without reason")).

(** [fetch(url, { signal })] raced against
    [setTimeout(() => controller.abort(), timeout)]: the timer aborts
    the call when it fires first, that is, when the network has not
    settled the call by the deadline. *)
Definition fetch (net : Promise Response) (timeout : N) : Promise Response :=
  match net with
  | Settles t s =>
      if timeout <? t then Settles timeout (Rejected AbortError)
      else Settles t s
  | Never => Settles timeout (Rejected AbortError)
  end.

Definition msg_request_timed_out : jsstring :=
  js "Request timed out. Please refresh the page and try again.".

Definition msg_connection_failed : jsstring :=
  js "Connection failed. Please check your internet and refresh the page.".

(** The [catch] block of [fetchWithTimeout]. *)
Definition fetchWithTimeout_catch (error : Thrown) : Async Response :=
  match error with
  | ThrowError e =>
      if JsString.eqb (name e) (js "AbortError") then
        throw (ThrowError (new_Error msg_request_timed_out))
      else if includes (message e) (js "fetch") then
        throw (ThrowError (new_Error msg_connection_failed))
      else throw error
  | ThrowOther => throw error
  end.

(** [fetchWithTimeout(url, options, timeout)].  Both exits clear the
    timer, so nothing guards the response once [fetch] has resolved. *)
Definition fetchWithTimeout (net : Promise Response) (timeout : N)
  : Async Response :=
  log (EvFetch timeout) ;;
  catch (await (fetch net timeout)) fetchWithTimeout_catch.

(** [response.json()]. *)
Definition json (r : Response) : Async QueryResponse := await (body r).

Definition maxRetries : N := 2.

(** The [try] block of one iteration of the loop of [query]. *)
Definition query_try (T : Transport) (request : QueryRequest) (attempt : N)
  : Async QueryResponse :=
  let timeoutMs := if attempt =? 1 then 30000 else 60000 in
  response <- fetchWithTimeout (T request attempt) timeoutMs ;;
  if negb (ok response) then
    errorData <- catch (json response) (fun _ => ret empty_object) ;;
    throw (ThrowError (new_Error
      (or_else (detail errorData)
               (js "HTTP error! status: " ++ ofN (http_status response)))))
  else json response.

(** [error instanceof Error ? error : new Error('Unknown error')]. *)
Definition as_Error (error : Thrown) : Error :=
  match error with
  | ThrowError e => e
  | ThrowOther => new_Error (js "Unknown error")
  end.

(** The [for] loop of [query] over the remaining attempt numbers.  It
    ends with [inl] when an iteration returns from [query], and with
    [inr lastError] when the loop is left. *)
Fixpoint query_loop (T : Transport) (request : QueryRequest)
    (attempts : list N) (lastError : Error)
  : Async (QueryResponse + Error) :=
  match attempts with
  | [] => ret (inr lastError)
  | attempt :: rest =>
      let r := query_try T request attempt in
      match outcome r with
      | Returned a => mkRun (trace r) (elapsed r) (Returned (inl a))
      | Pending => mkRun (trace r) (elapsed r) Pending
      | Threw error =>
          let lastError := as_Error error in
          let r' :=
            if attempt =? maxRetries then ret (inr lastError)
            else (delay 2000 ;; query_loop T request rest lastError) in
          mkRun (trace r ++ trace r') (elapsed r + elapsed r') (outcome r')
      end
  end.

Definition msg_taking_longer : jsstring :=
  js "The server is taking longer than expected to respond. Please refresh the page and try again. This often happens when the server is starting up.".

Definition msg_unable_to_connect : jsstring :=
  js "Unable to connect to the server. Please check your internet connection and refresh the page.".

(** The user-friendly message chosen after the loop. *)
Definition friendly (lastError : Error) : jsstring :=
  if includes (message lastError) (js "timed out")
     || includes (message lastError) (js "AbortError")
  then msg_taking_longer
  else if includes (message lastError) (js "Connection failed")
          || includes (message lastError) (js "fetch")
  then msg_unable_to_connect
  else js "Failed to send query: " ++ message lastError.

(** The attempt numbers [1 .. maxRetries] of the loop. *)
Definition attempts : list N :=
  map N.of_nat (seq 1 (N.to_nat maxRetries)).

(** [query(request)]. *)
Definition query (T : Transport) (request : QueryRequest)
  : Async QueryResponse :=
  r <- query_loop T request attempts (new_Error (js "Unknown error")) ;;
  match r with
  | inl a => ret a
  | inr lastError => throw (ThrowError (new_Error (friendly lastError)))
  end.

End ApiClient.


(* ===================================================================== *)
(** ** The Chat component (frontend/src/components/Chat.tsx) *)
(* ===================================================================== *)

Module Chat.

Record Message := mkMessage {
  id : jsstring;
  content : jsstring;
  isUser : bool;
  timestamp : N
}.

(** The [useState] cells of [Chat]. *)
Record State := mkState {
  messages : list Message;
  loading : bool;
  error : option jsstring;
  showExamples : bool;
  lastDetectedLanguage : option jsstring
}.

(** The state of a fresh session. *)
Definition initial : State := mkState [] false None true None.

Definition setMessages (f : list Message -> list Message) (st : State) : State :=
  mkState (f (messages st)) (loading st) (error st) (showExamples st)
          (lastDetectedLanguage st).

Definition setLoading (b : bool) (st : State) : State :=
  mkState (messages st) b (error st) (showExamples st) (lastDetectedLanguage st).

Definition setError (e : option jsstring) (st : State) : State :=
  mkState (messages st) (loading st) e (showExamples st) (lastDetectedLanguage st).

Definition setShowExamples (b : bool) (st : State) : State :=
  mkState (messages st) (loading st) (error st) b (lastDetectedLanguage st).

Definition setLastDetectedLanguage (l : option jsstring) (st : State) : State :=
  mkState (messages st) (loading st) (error st) (showExamples st) l.

(** What [generateId()] and [new Date()] give at one call site. *)
Record Stamp := mkStamp { fresh_id : jsstring; now : N }.

(** [handleSendMessage] up to its [await]: the local echo, the flags,
    and the request handed to [apiClient.query]. *)
Definition handleSendMessage_begin (s : Stamp) (messageText : jsstring)
    (st : State) : State * QueryRequest :=
  let userMessage := mkMessage (fresh_id s) messageText true (now s) in
  let st := setMessages (fun prev => prev ++ [userMessage]) st in
  let st := setShowExamples false st in
  let st := setLoading true st in
  let st := setError None st in
  (st, mkRequest messageText (Some (js "web_user"))).

(** [response.status === 'success' && response.response]. *)
Definition is_success (r : QueryResponse) : bool :=
  match status r with
  | Some s => JsString.eqb s (js "success")
  | None => false
  end && truthy_opt (response r).

(** [response.was_translated && response.detected_language &&
    response.detected_language !== 'English']. *)
Definition is_annotated (r : QueryResponse) : bool :=
  match was_translated r with Some true => true | _ => false end
  && truthy_opt (detected_language r)
  && match detected_language r with
     | Some l => negb (JsString.eqb l (js "English"))
     | None => true
     end.

(** [response.response] once it is known to be a string. *)
Definition answer (r : QueryResponse) : jsstring :=
  match response r with Some a => a | None => [] end.

(** The globe emoji U+1F30D, a surrogate pair, and what follows it up
    to the language name. *)
Definition annotation_open : jsstring :=
  [55356; 57101] ++ js " *Detected Language: ".

(** The annotation line for a language, with the blank line after it. *)
Definition annotation (language : jsstring) : jsstring :=
  annotation_open ++ language ++ js "*" ++ [10; 10].

Definition responseContent (r : QueryResponse) : jsstring :=
  if is_annotated r then
    annotation (match detected_language r with Some l => l | None => [] end)
    ++ answer r
  else answer r.

(** The rest of the [try] block once [apiClient.query] has resolved:
    the new state, or what the [else] branch throws. *)
Definition on_response (s : Stamp) (r : QueryResponse) (st : State)
  : State + Thrown :=
  if is_success r then
    let st :=
      if truthy_opt (detected_language r)
      then setLastDetectedLanguage (detected_language r) st
      else st in
    let botMessage := mkMessage (fresh_id s) (responseContent r) false (now s) in
    inl (setMessages (fun prev => prev ++ [botMessage]) st)
  else
    inr (ThrowError (new_Error
          (or_else (message_ r) (js "Failed to get response")))).

(** [error instanceof Error ? error.message : 'Unknown error occurred']. *)
Definition errorMessage_of (error : Thrown) : jsstring :=
  match error with
  | ThrowError e => message e
  | ThrowOther => js "Unknown error occurred"
  end.

Definition isConnectionError (errorMessage : jsstring) : bool :=
  includes errorMessage (js "timed out")
  || includes errorMessage (js "Connection failed")
  || includes errorMessage (js "server is starting up").

(** U+1F504 and the fixed text of the connection notice. *)
Definition connection_notice : jsstring :=
  [55357; 56580]
  ++ js " **Connection Issue**: The server might be starting up or there's a network issue."
  ++ [10; 10]
  ++ js "**Quick Fix**: Please refresh this page and try again. This usually resolves the issue!"
  ++ [10; 10]
  ++ js "*Technical details: ".

(** U+274C and the fixed text of the plain notice. *)
Definition sorry_notice : jsstring :=
  [10060] ++ js " Sorry, I encountered an error: ".

Definition friendlyMessage (errorMessage : jsstring) : jsstring :=
  if isConnectionError errorMessage
  then connection_notice ++ errorMessage ++ js "*"
  else sorry_notice ++ errorMessage.

(** The [catch] block. *)
Definition on_error (s : Stamp) (error : Thrown) (st : State) : State :=
  let errorMessage := errorMessage_of error in
  let st := setError (Some errorMessage) st in
  let errorBotMessage :=
    mkMessage (fresh_id s) (friendlyMessage errorMessage) false (now s) in
  setMessages (fun prev => prev ++ [errorBotMessage]) st.

(** [handleSendMessage] from the point where [apiClient.query] settles:
    the [try] block, the [catch] block, and [finally]. *)
Definition handleSendMessage_resume (s : Stamp)
    (settled : Settled QueryResponse) (st : State) : State :=
  let st :=
    match settled with
    | Resolved r =>
        match on_response s r st with
        | inl st' => st'
        | inr thrown => on_error s thrown st
        end
    | Rejected thrown => on_error s thrown st
    end in
  setLoading false st.

(** [handleSendMessage(messageText)] against a transport, with nothing
    else touching the state while the query is in flight. *)
Definition handleSendMessage (T : Transport) (su sb : Stamp)
    (messageText : jsstring) (st : State) : Async State :=
  let '(st1, request) := handleSendMessage_begin su messageText st in
  let q := ApiClient.query T request in
  mkRun (trace q) (elapsed q)
    match outcome q with
    | Returned r => Returned (handleSendMessage_resume sb (Resolved r) st1)
    | Threw e => Returned (handleSendMessage_resume sb (Rejected e) st1)
    | Pending => Pending
    end.

(** [handleSelectQuery(query)]. *)
Definition handleSelectQuery (T : Transport) (su sb : Stamp)
    (query : jsstring) (st : State) : Async State :=
  handleSendMessage T su sb query st.

(** The example buttons are part of the welcome screen:
    [messages.length === 0 && !loading], then [showExamples]. *)
Definition examples_rendered (st : State) : bool :=
  match messages st with [] => true | _ :: _ => false end
  && negb (loading st) && showExamples st.

(** The conversation status the view shows: the spinner while
    [loading], the error banner while [error] is truthy. *)
Inductive Status :=
| Idle
| Sending
| Error_ (detail : jsstring).

Definition status_of (st : State) : Status :=
  if loading st then Sending
  else match error st with
       | Some e => if truthy e then Error_ e else Idle
       | None => Idle
       end.

End Chat.

(* ===================================================================== *)
(** ** The ChatInput component (frontend/src/components/ChatInput.tsx) *)
(* ===================================================================== *)

Module ChatInput.

(** The [maxLength] attribute of the input element. *)
Definition maxLength : nat := 500.

(** [handleSend()] with the [loading] prop and the [message] cell: the
    argument of the call to [onSendMessage], if it is made, and the new
    value of [message]. *)
Definition handleSend (loading : bool) (message : jsstring)
  : option jsstring * jsstring :=
  let trimmedMessage := trim message in
  if truthy trimmedMessage && negb loading
  then (Some trimmedMessage, [])
  else (None, message).

(** [handleKeyPress(e)]: only Enter sends. *)
Definition handleKeyPress (key : jsstring) (loading : bool) (message : jsstring)
  : option jsstring * jsstring :=
  if JsString.eqb key (js "Enter") then handleSend loading message
  else (None, message).

End ChatInput.

(* ===================================================================== *)
(** ** The page as a machine: Chat wired to ChatInput and ExampleQueries *)
(* ===================================================================== *)

Module Ui.

(** Events are handled one at a time, and the page is rendered again
    between two of them, so a handler reads the state the event before
    it left.  The state: the cells of [Chat], the [message] cell of
    [ChatInput], and the number of calls of [apiClient.query] that have
    not settled yet. *)
Record State := mkUi {
  chat : Chat.State;
  input : jsstring;
  inflight : nat
}.

Definition initial : State := mkUi Chat.initial [] 0.

Inductive Event :=
| Change (value : jsstring)                 (* onChange of the input *)
| ClickSend (s : Chat.Stamp)                (* onClick of the send button *)
| KeyPress (key : jsstring) (s : Chat.Stamp)
| SelectExample (query : jsstring) (s : Chat.Stamp)
| Settle (r : Settled QueryResponse) (s : Chat.Stamp)
| Dismiss.                                  (* [setError(null)] *)

(** [onSendMessage] as [Chat] passes it: [handleSendMessage] runs up to
    its [await], and one more query is in flight. *)
Definition onSendMessage (s : Chat.Stamp) (text : jsstring) (st : State)
  : State :=
  mkUi (fst (Chat.handleSendMessage_begin s text (chat st)))
       (input st) (S (inflight st)).

(** What [ChatInput] does with the result of [handleSend]. *)
Definition after_send (s : Chat.Stamp)
    (r : option jsstring * jsstring) (st : State) : State :=
  match fst r with
  | Some text => onSendMessage s text (mkUi (chat st) (snd r) (inflight st))
  | None => mkUi (chat st) (snd r) (inflight st)
  end.

(** One event.  [None] when the page cannot produce the event in this
    state: the browser keeps the value of the input within [maxLength],
    an example button exists only while it is rendered, and only a
    query that is in flight can settle. *)
Definition step (st : State) (ev : Event) : option State :=
  match ev with
  | Change value =>
      if Nat.leb (List.length value) ChatInput.maxLength
      then Some (mkUi (chat st) value (inflight st))
      else None
  | ClickSend s =>
      Some (after_send s
              (ChatInput.handleSend (Chat.loading (chat st)) (input st)) st)
  | KeyPress key s =>
      Some (after_send s
              (ChatInput.handleKeyPress key (Chat.loading (chat st)) (input st))
              st)
  | SelectExample query s =>
      if Chat.examples_rendered (chat st)
      then Some (onSendMessage s query st)
      else None
  | Settle r s =>
      match inflight st with
      | O => None
      | S n => Some (mkUi (Chat.handleSendMessage_resume s r (chat st))
                          (input st) n)
      end
  | Dismiss => Some (mkUi (Chat.setError None (chat st)) (input st) (inflight st))
  end.

Fixpoint run (st : State) (evs : list Event) : option State :=
  match evs with
  | [] => Some st
  | ev :: evs' =>
      match step st ev with
      | Some st' => run st' evs'
      | None => None
      end
  end.

(** The states the page can be in. *)
Definition reachable (st : State) : Prop :=
  exists evs, run initial evs = Some st.

(** At most the query of the submission that set [loading] is in
    flight. *)
Definition single_flight (st : State) : Prop :=
  inflight st = if Chat.loading (chat st) then 1%nat else 0%nat.

(** The value of the input is within [maxLength]. *)
Definition input_bounded (st : State) : Prop :=
  (List.length (input st) <= ChatInput.maxLength)%nat.

End Ui.

(* ===================================================================== *)
(** ** Reading a run, and sample transports *)
(* ===================================================================== *)

(** The number of network calls a run issued. *)
Definition attempts_made {A} (r : Async A) : nat :=
  List.length (filter (fun ev => match ev with EvFetch _ => true | _ => false end)
                      (trace r)).

(** The time a run spent in retry delays. *)
Definition waited {A} (r : Async A) : N :=
  fold_right (fun ev acc => match ev with EvDelay ms => ms + acc | _ => acc end)
             0 (trace r).

(** The deadline [query] gives to an attempt. *)
Definition timeout_of (attempt : N) : N :=
  if attempt =? 1 then 30000 else 60000.

(** None of the substrings that [ApiClient.friendly] looks for. *)
Definition no_marker (m : jsstring) : bool :=
  negb (includes m (js "timed out")) && negb (includes m (js "AbortError"))
  && negb (includes m (js "Connection failed")) && negb (includes m (js "fetch")).

(** The timer of the attempt fires before the network answers. *)
Definition deadline_expires (net : Promise Response) (timeout : N) : bool :=
  match net with
  | Settles t _ => timeout <? t
  | Never => true
  end.

(** The conditions the specification calls retryable: the deadline of
    the attempt expires, or the network call itself fails. *)
Definition retryable_per_spec (net : Promise Response) (timeout : N) : bool :=
  deadline_expires net timeout
  || match net with
     | Settles _ (Rejected _) => true
     | _ => false
     end.

(** The time the body of the response of an attempt takes to arrive
    once the headers are there; [0] when the attempt has no response. *)
Definition body_time (net : Promise Response) (timeout : N) : N :=
  match ApiClient.fetch net timeout with
  | Settles _ (Resolved r) =>
      match body r with Settles d _ => d | Never => 0 end
  | _ => 0
  end.

(** The response of the attempt, if any, comes with its body. *)
Definition body_with_headers (net : Promise Response) : Prop :=
  forall t r, net = Settles t (Resolved r) -> exists s, body r = Settles 0 s.

(** The gateway call of a submission ended in a failure: [query] threw,
    or it returned a body that is not a success. *)
Definition gateway_failed (q : Outcome QueryResponse) : bool :=
  match q with
  | Returned r => negb (Chat.is_success r)
  | Threw _ => true
  | Pending => false
  end.

(** The detected language a settled query carries into the state: the
    one of a success whose [detected_language] is a non-empty string. *)
Definition carried_language (settled : Settled QueryResponse)
  : option jsstring :=
  match settled with
  | Resolved r =>
      if Chat.is_success r && truthy_opt (detected_language r)
      then detected_language r
      else None
  | Rejected _ => None
  end.

(** [lastDetectedLanguage] after a sequence of page events, as the
    specification has it: the language of the last settled query that
    carries one, and the old value when there is none. *)
Fixpoint language_after (evs : list Ui.Event) (l : option jsstring)
  : option jsstring :=
  match evs with
  | [] => l
  | Ui.Settle settled _ :: evs' =>
      language_after evs'
        match carried_language settled with
        | Some lang => Some lang
        | None => l
        end
  | _ :: evs' => language_after evs' l
  end.

Module Sample.

Definition request : QueryRequest :=
  mkRequest (js "Tell me about asthma") (Some (js "web_user")).

Definition success_body : QueryResponse :=
  mkResponse (Some (js "success")) (Some (js "Asthma is a chronic condition."))
             None (Some (js "English")) (Some false) None.

Definition spanish_body : QueryResponse :=
  mkResponse (Some (js "success")) (Some (js "La diabetes causa sed."))
             None (Some (js "Spanish")) (Some true) None.

Definition error_body (d : option jsstring) : QueryResponse :=
  mkResponse None None None None None d.

(** A response whose body is there with the headers. *)
Definition http (code : N) (b : QueryResponse) : Response :=
  mkHttp code (Settles 0 (Resolved b)).

(** HTTP 500 on the first attempt, then a good answer. *)
Definition error_then_success : Transport :=
  fun _ attempt =>
    if attempt =? 1
    then Settles 120 (Resolved (http 500 (error_body (Some (js "Internal Server Error")))))
    else Settles 80 (Resolved (http 200 success_body)).

(** HTTP 500 on every attempt, with a detail that mentions a fetch. *)
Definition error_mentions_fetch : Transport :=
  fun _ _ =>
    Settles 120 (Resolved (http 500 (error_body (Some (js "Failed to fetch disease data"))))).

(** HTTP 500 on every attempt, with a plain detail. *)
Definition error_plain : Transport :=
  fun _ _ =>
    Settles 120 (Resolved (http 500 (error_body (Some (js "Rasa server unavailable"))))).

(** The network call fails on every attempt with a TypeError whose
    message is "Load failed". *)
Definition network_load_failed : Transport :=
  fun _ _ =>
    Settles 50 (Rejected (ThrowError (mkError (js "TypeError") (js "Load failed")))).

(** No answer at all. *)
Definition silent : Transport := fun _ _ => Never.

(** No answer to the first attempt, a good answer to the second. *)
Definition silent_then_success : Transport :=
  fun _ attempt =>
    if attempt =? 1 then Never
    else Settles 80 (Resolved (http 200 success_body)).

(** The headers of a 200 response arrive at once; the body never does. *)
Definition stalled_body : Transport :=
  fun _ _ => Settles 100 (Resolved (mkHttp 200 Never)).

(** The headers of a 200 response arrive at once; the body takes two
    minutes. *)
Definition slow_body : Transport :=
  fun _ _ => Settles 100 (Resolved (mkHttp 200 (Settles 120000 (Resolved success_body)))).

Definition user_stamp : Chat.Stamp := Chat.mkStamp (js "id-1") 1000.
Definition bot_stamp : Chat.Stamp := Chat.mkStamp (js "id-2") 2000.

(** A conversation with one exchange done and a submission in flight. *)
Definition sending_state : Chat.State :=
  Chat.mkState
    [Chat.mkMessage (js "id-0") (js "What causes acne?") true 500]
    true None false None.

(** A session: a Spanish question answered with a translation, then a
    question whose query fails. *)
Definition session : list Ui.Event :=
  [Ui.Change (js "sintomas de la diabetes");
   Ui.ClickSend user_stamp;
   Ui.Settle (Resolved spanish_body) bot_stamp;
   Ui.Change (js "What causes acne?");
   Ui.KeyPress (js "Enter") user_stamp;
   Ui.Settle (Rejected (ThrowError (new_Error ApiClient.msg_unable_to_connect)))
             bot_stamp].

(** The page right after a first submission through the input. *)
Definition typing_then_send : list Ui.Event :=
  [Ui.Change (js "  Tell me about asthma "); Ui.ClickSend user_stamp].

End Sample.

(* ===================================================================== *)
(** ** The other methods of ApiClient (frontend/src/lib/api.ts) *)
(* ===================================================================== *)

Module ApiClientRest.

Import ApiClient.

(** The default value of the [timeout] parameter of [fetchWithTimeout],
    which [getDiseases] and [healthCheck] leave in place. *)
Definition default_timeout : N := 60000.

(** [getDiseases()], against what its one network call does.  The
    decoded body is handed on as it is; its fields are not read. *)
Definition getDiseases (net : Promise Response) : Async QueryResponse :=
  catch
    (response <- fetchWithTimeout net default_timeout ;;
     if negb (ok response) then
       errorData <- catch (json response) (fun _ => ret empty_object) ;;
       throw (ThrowError (new_Error
         (or_else (detail errorData)
                  (js "HTTP error! status: " ++ ofN (http_status response)))))
     else json response)
    (fun error =>
       match error with
       | ThrowError e =>
           throw (ThrowError (new_Error
             (js "Failed to fetch diseases: " ++ message e)))
       | ThrowOther =>
           throw (ThrowError (new_Error
             (js "Failed to fetch diseases: Unknown error")))
       end).

(** [healthCheck()].  Unlike the other two methods it does not read the
    body of a response that is not ok. *)
Definition healthCheck (net : Promise Response) : Async QueryResponse :=
  catch
    (response <- fetchWithTimeout net default_timeout ;;
     if negb (ok response) then
       throw (ThrowError (new_Error
         (js "HTTP error! status: " ++ ofN (http_status response))))
     else json response)
    (fun error =>
       match error with
       | ThrowError e =>
           throw (ThrowError (new_Error
             (js "Health check failed: " ++ message e)))
       | ThrowOther =>
           throw (ThrowError (new_Error
             (js "Health check failed: Unknown error")))
       end).

End ApiClientRest.

(* ===================================================================== *)
(** ** What Chat and ChatInput render from their state *)
(* ===================================================================== *)

Module ChatView.

(** The welcome screen replaces the message list:
    [messages.length === 0 && !loading]. *)
Definition welcome_shown (st : Chat.State) : bool :=
  match Chat.messages st with [] => true | _ :: _ => false end
  && negb (Chat.loading st).

(** The test under which the error banner shows the refresh button
    (and under whose negation it shows the small cross). *)
Definition reload_offered (error : jsstring) : bool :=
  includes error (js "timed out")
  || includes error (js "Connection failed")
  || includes error (js "server is starting up").

(** The error banner: [error && ...], with the text shown and whether
    the refresh button is there. *)
Definition banner (st : Chat.State) : option (jsstring * bool) :=
  match Chat.error st with
  | Some e => if truthy e then Some (e, reload_offered e) else None
  | None => None
  end.

(** The "Last detected" note of the header:
    [lastDetectedLanguage && lastDetectedLanguage !== 'English']. *)
Definition last_detected_note (st : Chat.State) : option jsstring :=
  match Chat.lastDetectedLanguage st with
  | Some l =>
      if truthy l && negb (JsString.eqb l (js "English")) then Some l else None
  | None => None
  end.

(** The [disabled] attribute of the send button of [ChatInput]:
    [loading || !message.trim()]. *)
Definition send_disabled (loading : bool) (message : jsstring) : bool :=
  loading || negb (truthy (trim message)).

End ChatView.

(* ===================================================================== *)
(** ** The ChatMessage component (frontend/src/components/ChatMessage.tsx) *)
(* ===================================================================== *)

Module ChatMessage.

(** One [<span>] of [formatContent]: a line, and whether a [<br />]
    follows it. *)
Record Span := mkSpan { line : jsstring; br : bool }.

(** [content.split('\n')].  The result is never empty: the empty string
    splits into one empty line. *)
Fixpoint split_lines (content : jsstring) : list jsstring :=
  match content with
  | [] => [[]]
  | c :: rest =>
      if c =? 10 then [] :: split_lines rest
      else match split_lines rest with
           | l :: ls => (c :: l) :: ls
           | [] => [[c]]
           end
  end.

(** [array.map((x, index) => f x index)], from a first index on. *)
Fixpoint map_index {A B} (f : A -> nat -> B) (index : nat) (l : list A)
  : list B :=
  match l with
  | [] => []
  | x :: l' => f x index :: map_index f (S index) l'
  end.

(** [formatContent(content)]. *)
Definition formatContent (content : jsstring) : list Span :=
  let array := split_lines content in
  map_index
    (fun line index => mkSpan line (Nat.ltb index (List.length array - 1)))
    0 array.

(** What the spans show, a [<br />] read as a line feed. *)
Definition shown (spans : list Span) : jsstring :=
  List.concat (map (fun s => line s ++ if br s then [10] else []) spans).

End ChatMessage.

(* ===================================================================== *)
(** ** The theme (frontend/src/contexts/ThemeContext.tsx, ThemeWrapper,
       and the inline script of app/layout.tsx) *)
(* ===================================================================== *)

Module Theme.

(** The cells of [ThemeProvider], whether the [html] element has the
    class [dark], and the entry [arogyaai-theme] of [localStorage]. *)
Record World := mkWorld {
  theme : jsstring;
  mounted : bool;
  dark_class : bool;
  stored : option jsstring
}.

Definition is_dark (t : jsstring) : bool := JsString.eqb t (js "dark").

(** The inline script of the layout, for what [localStorage] holds,
    the system preference, and the class as it is before. *)
Definition inline_script (prefersDark : bool) (saved : option jsstring)
    (class_before : bool) : bool :=
  match saved with
  | Some s =>
      if JsString.eqb s (js "dark") then true
      else if JsString.eqb s (js "light") then false
      else if prefersDark then true else class_before
  | None => if prefersDark then true else class_before
  end.

(** The first effect of [ThemeProvider]: load the theme on mount. *)
Definition mount_effect (prefersDark : bool) (w : World) : World :=
  let savedTheme := stored w in
  let systemPreference := if prefersDark then js "dark" else js "light" in
  let initialTheme := or_else savedTheme systemPreference in
  mkWorld initialTheme true (is_dark initialTheme) (stored w).

(** The second effect of [ThemeProvider]: apply and save the theme. *)
Definition sync_effect (w : World) : World :=
  if negb (mounted w) then w
  else mkWorld (theme w) (mounted w) (is_dark (theme w)) (Some (theme w)).

(** [toggleTheme()]. *)
Definition toggleTheme (w : World) : World :=
  let newTheme :=
    if JsString.eqb (theme w) (js "light") then js "dark" else js "light" in
  mkWorld newTheme (mounted w) (is_dark newTheme) (Some newTheme).

(** The theme the context gives out: [mounted ? theme : 'light']. *)
Definition context_theme (w : World) : jsstring :=
  if mounted w then theme w else js "light".

(** The effect of [ThemeWrapper]. *)
Definition wrapper_effect (w : World) : World :=
  mkWorld (theme w) (mounted w) (is_dark (context_theme w)) (stored w).

(** A page load over what [localStorage] holds: the document arrives
    without the class, the inline script runs, and the components
    mount.  On mount the effect of [ThemeWrapper], a child, runs before
    those of the provider, whose second effect still sees
    [mounted = false] and returns; the render that [setTheme] and
    [setMounted] cause runs the effect of [ThemeWrapper] again when the
    theme of the context has changed, and then the second effect of
    the provider. *)
Definition page_load (prefersDark : bool) (saved : option jsstring) : World :=
  let w0 := mkWorld (js "light") false (inline_script prefersDark saved false) saved in
  let w1 := wrapper_effect w0 in
  let w2 := mount_effect prefersDark w1 in
  let w3 :=
    if JsString.eqb (context_theme w1) (context_theme w2) then w2
    else wrapper_effect w2 in
  sync_effect w3.

(** The provider is mounted, the theme is one of the two, and the class
    and the stored value say the same. *)
Definition settled (w : World) : Prop :=
  mounted w = true
  /\ (theme w = js "light" \/ theme w = js "dark")
  /\ dark_class w = is_dark (theme w)
  /\ stored w = Some (theme w).

End Theme.

(* ===================================================================== *)
(** ** Shapes of a conversation *)
(* ===================================================================== *)

(** [lines.join('\n')]. *)
Fixpoint join_lines (lines : list jsstring) : jsstring :=
  match lines with
  | [] => []
  | l :: rest =>
      match rest with
      | [] => l
      | _ :: _ => l ++ [10] ++ join_lines rest
      end
  end.

(** The authorship of [k] complete exchanges: the user, then the
    assistant, [k] times. *)
Definition turns (k : nat) : list bool := List.concat (repeat [true; false] k).

(** The entries are complete exchanges, followed by the message of the
    user that is being answered while [loading] is set. *)
Definition alternates (st : Ui.State) : Prop :=
  exists k,
    map Chat.isUser (Chat.messages (Ui.chat st))
    = turns k ++ (if Chat.loading (Ui.chat st) then [true] else [])
    /\ List.length (Chat.messages (Ui.chat st)) = (2 * k + Ui.inflight st)%nat.

(** While [error] is set nothing is loading and the last entry is the
    assistant's rendering of that error. *)
Definition error_is_last_entry (st : Ui.State) : Prop :=
  forall d,
    Chat.error (Ui.chat st) = Some d ->
    Chat.loading (Ui.chat st) = false
    /\ exists prefix m,
         Chat.messages (Ui.chat st) = prefix ++ [m]
         /\ Chat.isUser m = false
         /\ Chat.content m = Chat.friendlyMessage d.

(** Until the first submission the cells of [Chat] are as they start;
    from then on [showExamples] is off. *)
Definition fresh_until_first_message (st : Ui.State) : Prop :=
  match Chat.messages (Ui.chat st) with
  | [] => Ui.chat st = Chat.initial
  | _ :: _ => Chat.showExamples (Ui.chat st) = false
  end.

(* ===================================================================== *)
(** ** The gateway: how one attempt and the whole query run *)
(* ===================================================================== *)

Section Gateway.

Import ApiClient.

#[local] Arguments N.ltb : simpl never.
#[local] Arguments N.leb : simpl never.
#[local] Arguments N.add : simpl never.
#[local] Arguments js : simpl never.
#[local] Arguments includes : simpl never.
#[local] Arguments JsString.eqb : simpl never.
#[local] Arguments ofN : simpl never.

Variable T : Transport.
Variable request : QueryRequest.

Ltac split_attempt :=
  unfold query_try, fetchWithTimeout, fetchWithTimeout_catch, json, fetch,
    bind, catch, await, log, throw, ret, ok;
  repeat (simpl;
    match goal with
    | |- context [match ?p with Settles _ _ => _ | Never => _ end] =>
        destruct p as [? [?|[?|]]|]
    | |- context [if ?b then _ else _] => destruct b eqn:?
    end);
  simpl.

Ltac run_attempt :=
  cbv beta iota zeta delta
    [bind catch await log json ok throw ret fetchWithTimeout_catch
     outcome trace elapsed body http_status].

(** Every attempt issues exactly one network call, with its deadline. *)
Lemma query_try_trace attempt :
  trace (query_try T request attempt) = [EvFetch (timeout_of attempt)].
Proof.
  unfold timeout_of. destruct (T request attempt) as [t [r|[e|]]|] eqn:HT;
    split_attempt; reflexivity.
Qed.

(** The loop of [query], unrolled: what [query] ends with. *)
Lemma query_outcome :
  outcome (query T request) =
  match outcome (query_try T request 1) with
  | Returned a => Returned a
  | Pending => Pending
  | Threw _ =>
      match outcome (query_try T request 2) with
      | Returned a => Returned a
      | Pending => Pending
      | Threw e2 => Threw (ThrowError (new_Error (friendly (as_Error e2))))
      end
  end.
Proof.
  unfold query, attempts, bind. simpl.
  destruct (outcome (query_try T request 1)); simpl; try reflexivity.
  destruct (outcome (query_try T request 2)); reflexivity.
Qed.

(** The loop of [query], unrolled: what [query] starts. *)
Lemma query_trace :
  trace (query T request) =
  match outcome (query_try T request 1) with
  | Threw _ => [EvFetch 30000; EvDelay 2000; EvFetch 60000]
  | _ => [EvFetch 30000]
  end.
Proof.
  unfold query, attempts, bind. simpl.
  destruct (outcome (query_try T request 1)) eqn:H1; simpl;
    rewrite ?query_try_trace; try reflexivity.
  destruct (outcome (query_try T request 2)); simpl;
    rewrite ?query_try_trace; reflexivity.
Qed.

(** The loop of [query], unrolled: how long [query] is suspended. *)
Lemma query_elapsed :
  elapsed (query T request) =
  match outcome (query_try T request 1) with
  | Threw _ =>
      elapsed (query_try T request 1) + 2000 + elapsed (query_try T request 2)
  | _ => elapsed (query_try T request 1)
  end.
Proof.
  unfold query, attempts, bind. simpl.
  destruct (outcome (query_try T request 1)) eqn:H1; simpl; try lia.
  destruct (outcome (query_try T request 2)); simpl; lia.
Qed.

(** An attempt whose timer fires first ends, at its deadline, with the
    timed-out error of [fetchWithTimeout]. *)
Lemma query_try_deadline attempt :
  deadline_expires (T request attempt) (timeout_of attempt) = true ->
  query_try T request attempt =
  mkRun [EvFetch (timeout_of attempt)] (timeout_of attempt)
        (Threw (ThrowError (new_Error msg_request_timed_out))).
Proof.
  unfold deadline_expires, timeout_of, query_try, fetchWithTimeout, fetch.
  intros H. destruct (T request attempt) as [t s|]; [rewrite H|];
    destruct (attempt =? 1); reflexivity.
Qed.

(** An attempt whose network call fails, before the deadline, with an
    [Error] that is not an abort and mentions a fetch ends with the
    connection-failed error of [fetchWithTimeout]. *)
Lemma query_try_transport attempt t e :
  T request attempt = Settles t (Rejected (ThrowError e)) ->
  deadline_expires (T request attempt) (timeout_of attempt) = false ->
  JsString.eqb (name e) (js "AbortError") = false ->
  includes (message e) (js "fetch") = true ->
  outcome (query_try T request attempt) =
  Threw (ThrowError (new_Error msg_connection_failed)).
Proof.
  unfold deadline_expires, timeout_of, query_try, fetchWithTimeout, fetch.
  intros HT. rewrite HT. intros Hd Hn Hf. rewrite Hd.
  unfold bind, catch, await, log, fetchWithTimeout_catch. simpl.
  rewrite Hn, Hf. reflexivity.
Qed.

(** An attempt answered, before the deadline, by a response that is not
    ok, whose body settles: the error carries the [detail] of the body,
    or the status line when the body has no usable [detail]. *)
Lemma query_try_http_error attempt t code after s :
  T request attempt = Settles t (Resolved (mkHttp code (Settles after s))) ->
  deadline_expires (T request attempt) (timeout_of attempt) = false ->
  (200 <=? code) && (code <=? 299) = false ->
  query_try T request attempt =
  mkRun [EvFetch (timeout_of attempt)] (t + after)
    (Threw (ThrowError (new_Error
       (or_else (detail match s with Resolved data => data | Rejected _ => empty_object end)
                (js "HTTP error! status: " ++ ofN code))))).
Proof.
  unfold deadline_expires, timeout_of, query_try, fetchWithTimeout, fetch.
  intros HT. rewrite HT. intros Hd Hok. rewrite Hd.
  unfold bind, catch, await, log, json, ok, throw, ret. simpl.
  rewrite Hok. simpl. destruct s as [data|e]; simpl; f_equal; lia.
Qed.

(** The time an attempt takes: at most its deadline, and then the time
    the body takes to arrive, which no timer bounds. *)
Lemma query_try_elapsed attempt :
  elapsed (query_try T request attempt) <=
  timeout_of attempt + body_time (T request attempt) (timeout_of attempt).
Proof.
  unfold body_time, query_try. fold (timeout_of attempt).
  generalize (timeout_of attempt) as d. intros d.
  unfold fetchWithTimeout, fetch.
  destruct (T request attempt) as [t [r|[e|]]|];
    try destruct (d <? t) eqn:Hlt;
    unfold bind, catch, await, log, json, ok, throw, ret,
      fetchWithTimeout_catch; simpl;
    repeat match goal with
    | |- context [if ?b then _ else _] => destruct b; simpl
    | |- context [match body ?r with _ => _ end] => destruct (body r) as [? [?|?]|]; simpl
    end;
    try apply N.ltb_ge in Hlt; try lia.
Qed.

(** An attempt can only stay pending on the body of a response. *)
Lemma query_try_pending attempt :
  outcome (query_try T request attempt) = Pending ->
  exists t code,
    T request attempt = Settles t (Resolved (mkHttp code Never)).
Proof.
  unfold query_try. fold (timeout_of attempt).
  generalize (timeout_of attempt) as d. intros d.
  destruct (T request attempt)
    as [t [[code [after [data|err]|]]|[e|]]|];
    unfold fetchWithTimeout, fetch;
    try destruct (d <? t) eqn:Hlt;
    run_attempt;
    repeat match goal with
    | |- context [if ?c then _ else _] => destruct c eqn:?; run_attempt
    end;
    try discriminate; intros _; eauto.
Qed.

(** The message chosen after the loop when the last error carries none
    of the substrings looked for. *)
Lemma friendly_no_marker (lastError : Error) :
  no_marker (message lastError) = true ->
  friendly lastError = js "Failed to send query: " ++ message lastError.
Proof.
  unfold no_marker, friendly. intros H.
  destruct (includes (message lastError) (js "timed out")); [discriminate|].
  destruct (includes (message lastError) (js "AbortError")); [discriminate|].
  destruct (includes (message lastError) (js "Connection failed")); [discriminate|].
  destruct (includes (message lastError) (js "fetch")); [discriminate|].
  reflexivity.
Qed.

(** [query] is suspended for at most the two deadlines and the retry
    delay, and for the time the bodies take to arrive. *)
Lemma query_elapsed_bound :
  elapsed (query T request) <=
  92000 + body_time (T request 1) 30000 + body_time (T request 2) 60000.
Proof.
  rewrite query_elapsed.
  pose proof (query_try_elapsed 1) as H1.
  pose proof (query_try_elapsed 2) as H2.
  change (timeout_of 1) with 30000 in H1.
  change (timeout_of 2) with 60000 in H2.
  destruct (outcome (query_try T request 1)); lia.
Qed.

(** When every response comes with its body, [query] settles within
    92,000 ms. *)
Lemma query_settles_within_deadlines :
  body_with_headers (T request 1) ->
  body_with_headers (T request 2) ->
  outcome (query T request) <> Pending /\ elapsed (query T request) <= 92000.
Proof.
  intros B1 B2. split.
  - rewrite query_outcome.
    destruct (outcome (query_try T request 1)) eqn:H1; try discriminate.
    + destruct (outcome (query_try T request 2)) eqn:H2; try discriminate.
      apply query_try_pending in H2. destruct H2 as (t & code & H2).
      destruct (B2 _ _ H2) as [s Hs]. simpl in Hs. discriminate Hs.
    + apply query_try_pending in H1. destruct H1 as (t & code & H1).
      destruct (B1 _ _ H1) as [s Hs]. simpl in Hs. discriminate Hs.
  - pose proof query_elapsed_bound as H.
    assert (Hb : forall net d, body_with_headers net -> body_time net d = 0).
    { intros net d B. unfold body_time, fetch.
      destruct net as [t [r|e]|]; try destruct (d <? t); try reflexivity.
      destruct (B t r eq_refl) as [s Hs]. rewrite Hs. reflexivity. }
    rewrite (Hb _ _ B1), (Hb _ _ B2) in H. lia.
Qed.

End Gateway.

(* ===================================================================== *)
(** ** The gateway: the properties of the specification *)
(* ===================================================================== *)

(** A transport that never answers: both deadlines expire, with the
    retry delay between them, and [query] throws the taking-longer
    message after 92,000 ms. *)
Example silent_transport_times_out :
  ApiClient.query Sample.silent Sample.request
  = mkRun [EvFetch 30000; EvDelay 2000; EvFetch 60000] 92000
      (Threw (ThrowError (new_Error ApiClient.msg_taking_longer))).
Proof. vm_compute. reflexivity. Qed.

(** A transport that lets the first deadline expire and then answers:
    two attempts, the second with a deadline of 60,000 ms, and the
    answer is returned. *)
Example timeout_then_success :
  ApiClient.query Sample.silent_then_success Sample.request
  = mkRun [EvFetch 30000; EvDelay 2000; EvFetch 60000] 32080
      (Returned Sample.success_body).
Proof. vm_compute. reflexivity. Qed.

(** C1, as stated, fails: with HTTP 500 on the first attempt and a good
    answer on the second, [query] does not fail at once.  The first
    attempt is answered at 120 ms by a response that is not ok, and
    [query] then waits 2,000 ms, issues a second network call and
    returns its answer. *)
Lemma C1_counterexample :
  let q := ApiClient.query Sample.error_then_success Sample.request in
  Sample.error_then_success Sample.request 1
    = Settles 120 (Resolved (Sample.http 500
        (Sample.error_body (Some (js "Internal Server Error")))))
  /\ ok (Sample.http 500 (Sample.error_body (Some (js "Internal Server Error"))))
     = false
  /\ attempts_made q = 2%nat
  /\ waited q = 2000
  /\ outcome q = Returned Sample.success_body.
Proof. vm_compute. repeat split; reflexivity. Qed.

(** C1, amended: when the first attempt is answered, within its
    deadline, by a response that is not ok and whose body settles,
    [query] does not fail at once.  It waits the 2,000 ms retry delay,
    issues a second attempt with a 60,000 ms deadline, and ends the way
    that second attempt ends. *)
Theorem C1_http_error_is_retried
    (T : Transport) (request : QueryRequest)
    (t code after : N) (s : Settled QueryResponse) :
  T request 1 = Settles t (Resolved (mkHttp code (Settles after s))) ->
  t <= 30000 ->
  ok (mkHttp code (Settles after s)) = false ->
  let q := ApiClient.query T request in
  trace q = [EvFetch 30000; EvDelay 2000; EvFetch 60000]
  /\ attempts_made q = 2%nat
  /\ waited q = 2000
  /\ elapsed q
     = t + after + 2000 + elapsed (ApiClient.query_try T request 2)
  /\ outcome q =
     match outcome (ApiClient.query_try T request 2) with
     | Returned a => Returned a
     | Threw e2 =>
         Threw (ThrowError (new_Error (ApiClient.friendly (ApiClient.as_Error e2))))
     | Pending => Pending
     end.
Proof.
  intros HT Ht Hok q.
  assert (Hd : deadline_expires (T request 1) (timeout_of 1) = false).
  { rewrite HT. unfold deadline_expires, timeout_of. simpl.
    apply N.ltb_ge. exact Ht. }
  pose proof (query_try_http_error T request 1 t code after s HT Hd Hok) as H1.
  assert (Htr : trace q = [EvFetch 30000; EvDelay 2000; EvFetch 60000]).
  { unfold q. rewrite query_trace, H1. reflexivity. }
  split; [exact Htr|].
  split; [unfold attempts_made; rewrite Htr; reflexivity|].
  split; [unfold waited; rewrite Htr; reflexivity|].
  split.
  - unfold q. rewrite query_elapsed, H1. reflexivity.
  - unfold q. rewrite query_outcome, H1. simpl.
    destruct (outcome (ApiClient.query_try T request 2)); reflexivity.
Qed.

(** The amended C1 at work: HTTP 500 at 120 ms, then a good answer at
    80 ms. *)
Lemma C1_http_error_is_retried_witness :
  let q := ApiClient.query Sample.error_then_success Sample.request in
  trace q = [EvFetch 30000; EvDelay 2000; EvFetch 60000]
  /\ attempts_made q = 2%nat
  /\ waited q = 2000
  /\ elapsed q
     = 120 + 0 + 2000
       + elapsed (ApiClient.query_try Sample.error_then_success Sample.request 2)
  /\ outcome q =
     match outcome (ApiClient.query_try Sample.error_then_success Sample.request 2) with
     | Returned a => Returned a
     | Threw e2 =>
         Threw (ThrowError (new_Error (ApiClient.friendly (ApiClient.as_Error e2))))
     | Pending => Pending
     end.
Proof.
  apply (C1_http_error_is_retried Sample.error_then_success Sample.request
           120 500 0
           (Resolved (Sample.error_body (Some (js "Internal Server Error"))))).
  - reflexivity.
  - lia.
  - reflexivity.
Defined.

(** C3, as stated, fails in its condition for the second attempt: the
    first attempt below ends with neither of the conditions the
    specification calls retryable (the backend answers, at 120 ms, with
    HTTP 500), and the second attempt is issued all the same. *)
Lemma C3_counterexample :
  let q := ApiClient.query Sample.error_then_success Sample.request in
  retryable_per_spec (Sample.error_then_success Sample.request 1) 30000 = false
  /\ trace q = [EvFetch 30000; EvDelay 2000; EvFetch 60000]
  /\ attempts_made q = 2%nat.
Proof. vm_compute. repeat split; reflexivity. Qed.

(** C3, amended: [query] makes at most 2 attempts; attempt 1 has a
    deadline of 30,000 ms; attempt 2 is issued exactly when attempt 1
    fails, in whatever way (deadline, network failure, a response that
    is not ok, a body that does not decode), has a deadline of
    60,000 ms and comes right after a delay of 2,000 ms. *)
Theorem C3_attempt_policy (T : Transport) (request : QueryRequest) :
  let q := ApiClient.query T request in
  (attempts_made q <= 2)%nat
  /\ (trace q = [EvFetch 30000]
      \/ trace q = [EvFetch 30000; EvDelay 2000; EvFetch 60000])
  /\ (attempts_made q = 2%nat
      <-> exists e, outcome (ApiClient.query_try T request 1) = Threw e)
  /\ (attempts_made q = 1%nat
      <-> forall e, outcome (ApiClient.query_try T request 1) <> Threw e).
Proof.
  intros q. unfold attempts_made, q. rewrite query_trace.
  destruct (outcome (ApiClient.query_try T request 1)) as [a|e|] eqn:H1;
    simpl; (split; [lia|]); (split; [auto|]); split; split;
    try discriminate; try (intros [e' He']; discriminate);
    try (intros _ e'; discriminate); try reflexivity; eauto; intros H.
  exfalso. exact (H e eq_refl).
Qed.

(** C5 against the code: [query] classifies a failure by looking for
    substrings in the message of the last error, not by what the error
    is.  HTTP 500 with the detail "Failed to fetch disease data" on
    both attempts is a backend error response, yet it is reported with
    the connection-check message, because the detail of the backend
    contains "fetch", and that detail is nowhere in the message; the
    same response with the detail "Rasa server unavailable" is passed
    on verbatim after "Failed to send query: ".  The other way round, a
    network call that fails with the message "Load failed" is reported
    with the generic message, not with the connection-check one. *)
Theorem C5_backend_detail_misclassified :
  Sample.error_mentions_fetch Sample.request 2
    = Settles 120 (Resolved (Sample.http 500
        (Sample.error_body (Some (js "Failed to fetch disease data")))))
  /\ outcome (ApiClient.query Sample.error_mentions_fetch Sample.request)
     = Threw (ThrowError (new_Error ApiClient.msg_unable_to_connect))
  /\ includes ApiClient.msg_unable_to_connect
       (js "Failed to fetch disease data") = false
  /\ outcome (ApiClient.query Sample.error_plain Sample.request)
     = Threw (ThrowError (new_Error
         (js "Failed to send query: " ++ js "Rasa server unavailable")))
  /\ outcome (ApiClient.query Sample.network_load_failed Sample.request)
     = Threw (ThrowError (new_Error
         (js "Failed to send query: " ++ js "Load failed"))).
Proof. vm_compute. repeat split; reflexivity. Qed.

(** What [query] does on a terminal failure, in general: it throws an
    [Error] whose message is chosen from the message of the error of
    the second (the last) attempt, by looking for substrings in it.  A
    deadline expiry gives the taking-longer-than-expected message; a
    network failure whose message mentions a fetch gives the
    connection-check message; a backend error response whose detail
    contains none of the substrings looked for is passed on verbatim
    after the prefix "Failed to send query: "; so is the message of any
    other error that contains none of them. *)
Theorem query_failure_message_by_substring
    (T : Transport) (request : QueryRequest) (e : Thrown) :
  outcome (ApiClient.query T request) = Threw e ->
  exists (m : jsstring) (last : Thrown),
    e = ThrowError (new_Error m)
    /\ outcome (ApiClient.query_try T request 2) = Threw last
    /\ m = ApiClient.friendly (ApiClient.as_Error last)
    /\ (deadline_expires (T request 2) 60000 = true ->
        m = ApiClient.msg_taking_longer)
    /\ (forall t err,
          T request 2 = Settles t (Rejected (ThrowError err)) ->
          t <= 60000 ->
          JsString.eqb (name err) (js "AbortError") = false ->
          includes (message err) (js "fetch") = true ->
          m = ApiClient.msg_unable_to_connect)
    /\ (forall t code after data d,
          T request 2
            = Settles t (Resolved (mkHttp code (Settles after (Resolved data)))) ->
          t <= 60000 ->
          ok (mkHttp code (Settles after (Resolved data))) = false ->
          detail data = Some d ->
          truthy d = true ->
          no_marker d = true ->
          m = js "Failed to send query: " ++ d)
    /\ (no_marker (message (ApiClient.as_Error last)) = true ->
        m = js "Failed to send query: " ++ message (ApiClient.as_Error last)).
Proof.
  rewrite query_outcome. intros H.
  destruct (outcome (ApiClient.query_try T request 1)) as [a1|e1|];
    try discriminate.
  destruct (outcome (ApiClient.query_try T request 2)) as [a2|e2|] eqn:H2;
    try discriminate.
  injection H as <-.
  exists (ApiClient.friendly (ApiClient.as_Error e2)), e2.
  split; [reflexivity|]. split; [reflexivity|]. split; [reflexivity|].
  split; [|split; [|split]].
  - intros Hd.
    rewrite (query_try_deadline T request 2 Hd) in H2.
    injection H2 as <-. reflexivity.
  - intros t err HT Ht Hn Hf.
    assert (Hd : deadline_expires (T request 2) (timeout_of 2) = false).
    { rewrite HT. apply N.ltb_ge. exact Ht. }
    rewrite (query_try_transport T request 2 t err HT Hd Hn Hf) in H2.
    injection H2 as <-. reflexivity.
  - intros t code after data d HT Ht Hok Hdet Htr Hm.
    assert (Hd : deadline_expires (T request 2) (timeout_of 2) = false).
    { rewrite HT. apply N.ltb_ge. exact Ht. }
    rewrite (query_try_http_error T request 2 t code after _ HT Hd Hok) in H2.
    simpl in H2. injection H2 as <-.
    rewrite Hdet. unfold or_else. rewrite Htr.
    apply (friendly_no_marker (new_Error d)). exact Hm.
  - apply friendly_no_marker.
Qed.

(** The lemma above at work: HTTP 500 with the detail "Rasa server
    unavailable" on both attempts. *)
Lemma query_failure_message_by_substring_witness :
  exists (m : jsstring) (last : Thrown),
    Threw (A := QueryResponse) (ThrowError (new_Error
      (js "Failed to send query: Rasa server unavailable")))
      = Threw (ThrowError (new_Error m))
    /\ outcome (ApiClient.query_try Sample.error_plain Sample.request 2)
       = Threw last
    /\ m = ApiClient.friendly (ApiClient.as_Error last).
Proof.
  destruct (query_failure_message_by_substring Sample.error_plain Sample.request
              (ThrowError (new_Error
                 (js "Failed to send query: Rasa server unavailable")))
              eq_refl)
    as (m & last & He & Hlast & Hm & _).
  exists m, last. rewrite He. repeat split; assumption.
Defined.

(** C8 against the code: [fetchWithTimeout] clears its timer as soon as
    the headers are there, so the deadline does not cover the body.
    For a request text of 20 characters: when the body of a 200
    response never arrives, [query] stays pending after one network
    call and never returns; when it takes two minutes, [query] returns
    after 120,100 ms, past the 92,000 ms of the claim. *)
Theorem C8_body_read_outlives_deadlines :
  (1 <= List.length (query_text Sample.request) <= 500)%nat
  /\ outcome (ApiClient.query Sample.stalled_body Sample.request) = Pending
  /\ trace (ApiClient.query Sample.stalled_body Sample.request)
     = [EvFetch 30000]
  /\ outcome (ApiClient.query Sample.slow_body Sample.request)
     = Returned Sample.success_body
  /\ elapsed (ApiClient.query Sample.slow_body Sample.request) = 120100
  /\ 92000 < elapsed (ApiClient.query Sample.slow_body Sample.request).
Proof. vm_compute. repeat split; try reflexivity; lia. Qed.

(* ===================================================================== *)
(** ** Facts about strings *)
(* ===================================================================== *)

Section Strings.

Lemma eqb_refl (a : jsstring) : JsString.eqb a a = true.
Proof.
  induction a as [|x a IH]; simpl; [reflexivity|].
  rewrite N.eqb_refl. exact IH.
Qed.

Lemma eqb_eq (a b : jsstring) : JsString.eqb a b = true <-> a = b.
Proof.
  split.
  - revert b. induction a as [|x a IH]; intros [|y b] H; simpl in H;
      try discriminate; [reflexivity|].
    apply andb_true_iff in H. destruct H as [Hx Hab].
    apply N.eqb_eq in Hx. subst y. f_equal. apply IH. exact Hab.
  - intros <-. apply eqb_refl.
Qed.

Lemma startsWith_app (p s : jsstring) : startsWith (p ++ s) p = true.
Proof.
  induction p as [|x p IH]; simpl; [destruct s; reflexivity|].
  rewrite N.eqb_refl. exact IH.
Qed.

Lemma includes_skip (a s p : jsstring) :
  includes s p = true -> includes (a ++ s) p = true.
Proof.
  intros H. induction a as [|x a IH]; simpl; [exact H|].
  rewrite IH. apply orb_true_r.
Qed.

(** A string includes each of the pieces it is built from. *)
Lemma includes_middle (a s b : jsstring) : includes (a ++ s ++ b) s = true.
Proof.
  apply includes_skip. destruct s as [|x s]; [destruct b; reflexivity|].
  simpl. rewrite N.eqb_refl, startsWith_app. reflexivity.
Qed.


Lemma trimStart_length (s : jsstring) :
  (List.length (trimStart s) <= List.length s)%nat.
Proof.
  induction s as [|c s IH]; simpl; [lia|].
  destruct (isWhiteSpace c); simpl; lia.
Qed.

(** Trimming never makes a string longer. *)
Lemma trim_length (s : jsstring) :
  (List.length (trim s) <= List.length s)%nat.
Proof.
  unfold trim, trimEnd. rewrite length_rev.
  pose proof (trimStart_length (rev (trimStart s))) as H1.
  rewrite length_rev in H1.
  pose proof (trimStart_length s). lia.
Qed.

End Strings.

(* ===================================================================== *)
(** ** The controller: how [handleSendMessage] moves the state *)
(* ===================================================================== *)

Section Controller.

Import Chat.

Lemma begin_messages (s : Stamp) (text : jsstring) (st : State) :
  messages (fst (handleSendMessage_begin s text st))
  = messages st ++ [mkMessage (fresh_id s) text true (now s)].
Proof. reflexivity. Qed.

Lemma begin_request (s : Stamp) (text : jsstring) (st : State) :
  snd (handleSendMessage_begin s text st)
  = mkRequest text (Some (js "web_user")).
Proof. reflexivity. Qed.

(** What the [catch] block makes of the state, [finally] included. *)
Lemma resume_on_failure (s : Stamp) (settled : Settled QueryResponse)
    (st : State) :
  gateway_failed match settled with
                 | Resolved r => Returned r
                 | Rejected e => Threw e
                 end = true ->
  let detail :=
    match settled with
    | Resolved r => or_else (message_ r) (js "Failed to get response")
    | Rejected e => errorMessage_of e
    end in
  handleSendMessage_resume s settled st
  = mkState
      (messages st ++ [mkMessage (fresh_id s) (friendlyMessage detail) false (now s)])
      false (Some detail) (showExamples st) (lastDetectedLanguage st).
Proof.
  destruct settled as [r|e]; simpl; intros H; [|reflexivity].
  unfold handleSendMessage_resume, on_response.
  destruct (is_success r); [discriminate|]. reflexivity.
Qed.

(** What the [try] block makes of the state on a success, [finally]
    included. *)
Lemma resume_on_success (s : Stamp) (r : QueryResponse) (st : State) :
  is_success r = true ->
  handleSendMessage_resume s (Resolved r) st
  = mkState
      (messages st ++ [mkMessage (fresh_id s) (responseContent r) false (now s)])
      false (error st) (showExamples st)
      (if truthy_opt (detected_language r)
       then detected_language r else lastDetectedLanguage st).
Proof.
  intros H. unfold handleSendMessage_resume, on_response. rewrite H.
  destruct (truthy_opt (detected_language r)); reflexivity.
Qed.

(** Whatever the query settles with, and whatever state it finds, the
    continuation appends exactly one entry, by the assistant, and
    leaves the entries that are there as they are. *)
Lemma resume_appends_one (s : Stamp) (settled : Settled QueryResponse)
    (st : State) :
  exists m,
    messages (handleSendMessage_resume s settled st) = messages st ++ [m]
    /\ isUser m = false.
Proof.
  destruct settled as [r|e].
  - destruct (is_success r) eqn:Hs.
    + rewrite resume_on_success by exact Hs. eexists; split; reflexivity.
    + rewrite resume_on_failure by (simpl; rewrite Hs; reflexivity).
      eexists; split; reflexivity.
  - rewrite resume_on_failure by reflexivity. eexists; split; reflexivity.
Qed.

Lemma resume_language (s : Stamp) (settled : Settled QueryResponse)
    (st : State) :
  lastDetectedLanguage (handleSendMessage_resume s settled st)
  = match carried_language settled with
    | Some lang => Some lang
    | None => lastDetectedLanguage st
    end.
Proof.
  destruct settled as [r|e]; unfold carried_language.
  - destruct (is_success r) eqn:Hs.
    + rewrite resume_on_success by exact Hs. simpl.
      destruct (detected_language r) as [l|]; simpl; [|reflexivity].
      destruct (truthy l); reflexivity.
    + rewrite resume_on_failure by (simpl; rewrite Hs; reflexivity).
      reflexivity.
  - reflexivity.
Qed.

(** The error [query] throws always has a text. *)
Lemma friendly_truthy (lastError : Error) :
  truthy (ApiClient.friendly lastError) = true.
Proof.
  unfold ApiClient.friendly.
  destruct (_ || _); [reflexivity|]. destruct (_ || _); reflexivity.
Qed.

Lemma status_of_sending (st : State) :
  status_of st = Sending <-> loading st = true.
Proof.
  unfold status_of. destruct (loading st); [tauto|].
  split; [|discriminate].
  destruct (error st) as [e|]; [destruct (truthy e)|]; discriminate.
Qed.

End Controller.

(* ===================================================================== *)
(** ** The controller: the properties of the specification *)
(* ===================================================================== *)



(** C6: on a success, the entry of the assistant is the answer text,
    and it is preceded by the language-detection annotation exactly
    when [was_translated] is true and [detected_language] is a
    non-empty string other than "English"; the annotation contains the
    name of the language.  With "English", with [was_translated] false
    or absent, or with no detected language, the entry is the answer
    text alone. *)
Theorem C6_language_annotation
    (s : Chat.Stamp) (r : QueryResponse) (st : Chat.State) :
  Chat.is_success r = true ->
  exists botMessage : Chat.Message,
    Chat.messages (Chat.handleSendMessage_resume s (Resolved r) st)
    = Chat.messages st ++ [botMessage]
    /\ Chat.isUser botMessage = false
    /\ response r = Some (Chat.answer r)
    /\ (forall language,
          was_translated r = Some true ->
          detected_language r = Some language ->
          truthy language = true ->
          language <> js "English" ->
          Chat.content botMessage = Chat.annotation language ++ Chat.answer r
          /\ startsWith (Chat.content botMessage) (Chat.annotation language) = true
          /\ includes (Chat.annotation language) language = true)
    /\ (detected_language r = Some (js "English")
        \/ was_translated r <> Some true
        \/ truthy_opt (detected_language r) = false ->
        Chat.content botMessage = Chat.answer r).
Proof.
  intros Hs. rewrite (resume_on_success s r st Hs).
  eexists. split; [reflexivity|]. split; [reflexivity|]. split.
  - unfold Chat.is_success in Hs. apply andb_true_iff in Hs.
    destruct Hs as [_ Hs]. unfold Chat.answer.
    destruct (response r); [reflexivity | discriminate].
  - cbn [Chat.content]. unfold Chat.responseContent, Chat.is_annotated. split.
    + intros language Hw Hl Ht Hne. rewrite Hw, Hl.
      cbn [truthy_opt andb]. rewrite Ht.
      destruct (JsString.eqb language (js "English")) eqn:He.
      * apply eqb_eq in He. contradiction.
      * cbn [andb negb]. split; [reflexivity|]. split; [apply startsWith_app|].
        unfold Chat.annotation. apply includes_middle.
    + intros [He|[Hw|Ht]].
      * rewrite He. rewrite eqb_refl. cbn [negb].
        rewrite andb_false_r. reflexivity.
      * destruct (was_translated r) as [[|]|]; try reflexivity.
        contradiction.
      * rewrite Ht. rewrite andb_false_r. reflexivity.
Qed.

(** C6 at work: a translated answer whose detected language is
    Spanish. *)
Lemma C6_language_annotation_witness :
  exists botMessage : Chat.Message,
    Chat.messages
      (Chat.handleSendMessage_resume Sample.bot_stamp
         (Resolved Sample.spanish_body) Chat.initial)
    = Chat.messages Chat.initial ++ [botMessage]
    /\ Chat.content botMessage
       = Chat.annotation (js "Spanish") ++ js "La diabetes causa sed."
    /\ startsWith (Chat.content botMessage) (Chat.annotation (js "Spanish")) = true
    /\ includes (Chat.annotation (js "Spanish")) (js "Spanish") = true.
Proof.
  destruct (C6_language_annotation Sample.bot_stamp Sample.spanish_body
              Chat.initial eq_refl)
    as (m & Hm & _ & _ & Ha & _).
  exists m. split; [exact Hm|].
  apply (Ha (js "Spanish") eq_refl eq_refl eq_refl).
  intros H. vm_compute in H. discriminate H.
Defined.

(** C9: whatever [apiClient.query] settles with (a success, a body
    that is not a success, or a throw), and whatever state the
    continuation finds, [finally] leaves [loading] false, so the status
    is not [Sending]; and a run of [handleSendMessage] never throws: it
    completes with [loading] false, or stays pending exactly when the
    query itself never settles. *)
Theorem C9_loading_reset
    (T : Transport) (su sb : Chat.Stamp) (text : jsstring)
    (st st0 : Chat.State) (settled : Settled QueryResponse) :
  Chat.loading (Chat.handleSendMessage_resume sb settled st0) = false
  /\ Chat.status_of (Chat.handleSendMessage_resume sb settled st0) <> Chat.Sending
  /\ match outcome (Chat.handleSendMessage T su sb text st) with
     | Returned st' =>
         Chat.loading st' = false /\ Chat.status_of st' <> Chat.Sending
     | Threw _ => False
     | Pending =>
         outcome (ApiClient.query T (mkRequest text (Some (js "web_user"))))
         = Pending
     end.
Proof.
  assert (H : forall x c,
            Chat.loading (Chat.handleSendMessage_resume sb x c) = false
            /\ Chat.status_of (Chat.handleSendMessage_resume sb x c) <> Chat.Sending).
  { intros x c.
    assert (Hl : Chat.loading (Chat.handleSendMessage_resume sb x c) = false)
      by reflexivity.
    split; [exact Hl|]. intros Hs. apply status_of_sending in Hs.
    rewrite Hl in Hs. discriminate. }
  split; [apply H|]. split; [apply H|].
  unfold Chat.handleSendMessage.
  destruct (Chat.handleSendMessage_begin su text st) as [st1 request] eqn:Hb.
  assert (Hr : request = mkRequest text (Some (js "web_user"))).
  { change request with (snd (st1, request)). rewrite <- Hb. apply begin_request. }
  subst request. simpl outcome.
  destruct (outcome (ApiClient.query T _)); [apply H | apply H | reflexivity].
Qed.

(* ===================================================================== *)
(** ** The page: what holds in every state it can reach *)
(* ===================================================================== *)

Section Page.

Import Ui.

Lemma run_invariant (P : State -> Prop) :
  (forall st ev st', P st -> step st ev = Some st' -> P st') ->
  forall evs st st', P st -> run st evs = Some st' -> P st'.
Proof.
  intros Hstep. induction evs as [|ev evs IH]; intros st st' HP Hrun;
    simpl in Hrun.
  - injection Hrun as <-. exact HP.
  - destruct (step st ev) as [st1|] eqn:H1; [|discriminate].
    apply (IH st1); [apply (Hstep st ev); assumption | exact Hrun].
Qed.

Lemma handleSend_cases (loading : bool) (message : jsstring) :
  (ChatInput.handleSend loading message = (Some (trim message), [])
   /\ truthy (trim message) = true /\ loading = false)
  \/ ChatInput.handleSend loading message = (None, message).
Proof.
  unfold ChatInput.handleSend.
  destruct (truthy (trim message)); destruct loading; simpl; auto.
Qed.

Lemma handleKeyPress_cases (key : jsstring) (loading : bool) (message : jsstring) :
  (ChatInput.handleKeyPress key loading message
   = ChatInput.handleSend loading message /\ key = js "Enter")
  \/ ChatInput.handleKeyPress key loading message = (None, message).
Proof.
  unfold ChatInput.handleKeyPress.
  destruct (JsString.eqb key (js "Enter")) eqn:He; [left|right; reflexivity].
  split; [reflexivity | apply eqb_eq; exact He].
Qed.

Lemma after_send_single_flight (s : Chat.Stamp)
    (r : option jsstring * jsstring) (st : State) :
  single_flight st ->
  (fst r <> None -> Chat.loading (chat st) = false) ->
  single_flight (after_send s r st).
Proof.
  unfold single_flight, after_send. intros Hinv Hr.
  destruct (fst r) as [text|]; simpl; [|exact Hinv].
  rewrite Hinv, Hr by discriminate. reflexivity.
Qed.

Lemma step_single_flight (st : State) (ev : Event) (st' : State) :
  single_flight st -> step st ev = Some st' -> single_flight st'.
Proof.
  intros Hinv Hstep. destruct ev as [value|s|key s|query s|r s|]; simpl in Hstep.
  - destruct (Nat.leb _ _); [|discriminate]. injection Hstep as <-. exact Hinv.
  - injection Hstep as <-. apply after_send_single_flight; [exact Hinv|].
    destruct (handleSend_cases (Chat.loading (chat st)) (input st))
      as [(_ & _ & Hl)|H]; [intros _; exact Hl | rewrite H; simpl; congruence].
  - injection Hstep as <-. apply after_send_single_flight; [exact Hinv|].
    destruct (handleKeyPress_cases key (Chat.loading (chat st)) (input st))
      as [[Hk _]|H]; [rewrite Hk | rewrite H; simpl; congruence].
    destruct (handleSend_cases (Chat.loading (chat st)) (input st))
      as [(_ & _ & Hl)|H]; [intros _; exact Hl | rewrite H; simpl; congruence].
  - destruct (Chat.examples_rendered (chat st)) eqn:Hr; [|discriminate].
    injection Hstep as <-. unfold single_flight in *. simpl.
    unfold Chat.examples_rendered in Hr.
    destruct (Chat.loading (chat st)); [|rewrite Hinv; reflexivity].
    rewrite andb_false_r in Hr. discriminate.
  - unfold single_flight in *. destruct (inflight st) as [|n]; [discriminate|].
    injection Hstep as <-. simpl.
    destruct (Chat.loading (chat st)); [|discriminate].
    injection Hinv as ->. reflexivity.
  - injection Hstep as <-. exact Hinv.
Qed.

Lemma after_send_input_bounded (s : Chat.Stamp)
    (r : option jsstring * jsstring) (st : State) :
  (List.length (snd r) <= ChatInput.maxLength)%nat ->
  input_bounded (after_send s r st).
Proof.
  unfold input_bounded, after_send. intros H.
  destruct (fst r); simpl; exact H.
Qed.

Lemma step_input_bounded (st : State) (ev : Event) (st' : State) :
  input_bounded st -> step st ev = Some st' -> input_bounded st'.
Proof.
  intros Hinv Hstep. destruct ev as [value|s|key s|query s|r s|]; simpl in Hstep.
  - destruct (Nat.leb _ _) eqn:Hle; [|discriminate]. injection Hstep as <-.
    apply Nat.leb_le in Hle. exact Hle.
  - injection Hstep as <-. apply after_send_input_bounded.
    destruct (handleSend_cases (Chat.loading (chat st)) (input st))
      as [(H & _)|H]; rewrite H; simpl; [lia | exact Hinv].
  - injection Hstep as <-. apply after_send_input_bounded.
    destruct (handleKeyPress_cases key (Chat.loading (chat st)) (input st))
      as [[Hk _]|H]; [rewrite Hk | rewrite H; exact Hinv].
    destruct (handleSend_cases (Chat.loading (chat st)) (input st))
      as [(H & _)|H]; rewrite H; simpl; [lia | exact Hinv].
  - destruct (Chat.examples_rendered (chat st)); [|discriminate].
    injection Hstep as <-. exact Hinv.
  - destruct (inflight st); [discriminate|]. injection Hstep as <-. exact Hinv.
  - injection Hstep as <-. exact Hinv.
Qed.

Lemma reachable_single_flight (st : State) : reachable st -> single_flight st.
Proof.
  intros [evs Hrun].
  apply (run_invariant single_flight step_single_flight evs initial st);
    [reflexivity | exact Hrun].
Qed.

Lemma reachable_input_bounded (st : State) : reachable st -> input_bounded st.
Proof.
  intros [evs Hrun].
  apply (run_invariant input_bounded step_input_bounded evs initial st);
    [unfold input_bounded; simpl; lia | exact Hrun].
Qed.

(** One event moves [lastDetectedLanguage] as [language_after] says. *)
Lemma step_language (st : State) (ev : Event) (st' : State) :
  step st ev = Some st' ->
  Chat.lastDetectedLanguage (chat st')
  = language_after [ev] (Chat.lastDetectedLanguage (chat st)).
Proof.
  intros Hstep. destruct ev as [value|s|key s|query s|r s|]; simpl in Hstep.
  - destruct (Nat.leb _ _); [|discriminate]. injection Hstep as <-. reflexivity.
  - injection Hstep as <-. unfold after_send.
    destruct (fst _); reflexivity.
  - injection Hstep as <-. unfold after_send.
    destruct (fst _); reflexivity.
  - destruct (Chat.examples_rendered (chat st)); [|discriminate].
    injection Hstep as <-. reflexivity.
  - destruct (inflight st); [discriminate|]. injection Hstep as <-.
    simpl. apply resume_language.
  - injection Hstep as <-. reflexivity.
Qed.

Lemma run_language (evs : list Event) (st st' : State) :
  run st evs = Some st' ->
  Chat.lastDetectedLanguage (chat st')
  = language_after evs (Chat.lastDetectedLanguage (chat st)).
Proof.
  revert st. induction evs as [|ev evs IH]; intros st Hrun; simpl in Hrun.
  - injection Hrun as <-. reflexivity.
  - destruct (step st ev) as [st1|] eqn:H1; [|discriminate].
    rewrite (IH st1 Hrun), (step_language st ev st1 H1).
    destruct ev; reflexivity.
Qed.

Lemma carried_language_inv (settled : Settled QueryResponse) (lang : jsstring) :
  carried_language settled = Some lang ->
  exists r, settled = Resolved r /\ Chat.is_success r = true
            /\ detected_language r = Some lang /\ truthy lang = true.
Proof.
  destruct settled as [r|e]; unfold carried_language; [|discriminate].
  destruct (Chat.is_success r) eqn:Hs; cbn [andb]; [|discriminate].
  destruct (detected_language r) as [l|] eqn:Hl; cbn [truthy_opt];
    [|discriminate].
  destruct (truthy l) eqn:Ht; [|discriminate].
  intros H. injection H as <-. exists r. auto.
Qed.

(** [language_after] keeps the old value, or ends with the language a
    settled success of the sequence carries. *)
Lemma language_after_cases (evs : list Event) (l : option jsstring) :
  language_after evs l = l
  \/ exists settled s lang,
       In (Settle settled s) evs
       /\ carried_language settled = Some lang
       /\ language_after evs l = Some lang.
Proof.
  revert l. induction evs as [|ev evs IH]; intros l; [left; reflexivity|].
  destruct ev as [value|s|key s|query s|r s|]; simpl;
    try (destruct (IH l) as [H|(x & s' & lang & Hin & Hc & H)];
         [left; exact H | right; exists x, s', lang; auto]).
  destruct (carried_language r) as [lang|] eqn:Hc.
  - destruct (IH (Some lang)) as [H|(x & s' & lang' & Hin & Hc' & H)].
    + right. exists r, s, lang. auto.
    + right. exists x, s', lang'. auto.
  - destruct (IH l) as [H|(x & s' & lang' & Hin & Hc' & H)].
    + left. exact H.
    + right. exists x, s', lang'. auto.
Qed.

Lemma language_after_kept (evs : list Event) (l : option jsstring) :
  l <> None -> language_after evs l <> None.
Proof.
  revert l. induction evs as [|ev evs IH]; intros l Hl; [exact Hl|].
  destruct ev as [value|s|key s|query s|r s|]; simpl; try (apply IH; exact Hl).
  destruct (carried_language r); apply IH; [discriminate | exact Hl].
Qed.

End Page.

(* ===================================================================== *)
(** ** The page: the properties of the specification *)
(* ===================================================================== *)

(** C2, as stated, fails: [handleSendMessage] has no guard of its own.
    Called on a conversation that is [Sending] and has one entry, it
    appends a second entry and calls the gateway, which issues its
    network calls. *)
Lemma C2_counterexample :
  let st := Sample.sending_state in
  let text := js "Symptoms of anxiety" in
  let started := Chat.handleSendMessage_begin Sample.user_stamp text st in
  Chat.status_of st = Chat.Sending
  /\ List.length (Chat.messages st) = 1%nat
  /\ List.length (Chat.messages (fst started)) = 2%nat
  /\ snd started = mkRequest text (Some (js "web_user"))
  /\ attempts_made
       (Chat.handleSendMessage Sample.error_then_success Sample.user_stamp
          Sample.bot_stamp text st) = 2%nat.
Proof. vm_compute. repeat split; reflexivity. Qed.

(** C2, amended: the guard is in [ChatInput.handleSend], not in
    [handleSendMessage].  In every state the page can reach, at most
    one query is in flight, and one is in flight exactly while
    [loading] is set; and while the status is [Sending], a click on the
    send button or a key press in the input changes nothing (no entry
    is added, no query is started), and no example button is there to
    be clicked. *)
Theorem C2_single_flight (st : Ui.State) :
  Ui.reachable st ->
  (Ui.inflight st <= 1)%nat
  /\ Ui.inflight st = (if Chat.loading (Ui.chat st) then 1%nat else 0%nat)
  /\ (Chat.status_of (Ui.chat st) = Chat.Sending ->
      (forall s, Ui.step st (Ui.ClickSend s) = Some st)
      /\ (forall key s, Ui.step st (Ui.KeyPress key s) = Some st)
      /\ (forall query s, Ui.step st (Ui.SelectExample query s) = None)).
Proof.
  intros Hreach. pose proof (reachable_single_flight st Hreach) as Hinv.
  unfold Ui.single_flight in Hinv.
  split; [rewrite Hinv; destruct (Chat.loading (Ui.chat st)); lia|].
  split; [exact Hinv|].
  intros Hs. apply status_of_sending in Hs.
  assert (Hsend : ChatInput.handleSend (Chat.loading (Ui.chat st)) (Ui.input st)
                  = (None, Ui.input st)).
  { unfold ChatInput.handleSend. rewrite Hs, andb_false_r. reflexivity. }
  split; [|split].
  - intros s. simpl. rewrite Hsend. destruct st; reflexivity.
  - intros key s. simpl. unfold ChatInput.handleKeyPress. rewrite Hsend.
    destruct (JsString.eqb key (js "Enter")); destruct st; reflexivity.
  - intros query s. simpl. unfold Chat.examples_rendered. rewrite Hs.
    rewrite andb_false_r. reflexivity.
Qed.

(** The amended C2 at work, on the page right after a first
    submission. *)
Lemma C2_single_flight_witness :
  exists st : Ui.State,
    Ui.run Ui.initial Sample.typing_then_send = Some st
    /\ Chat.status_of (Ui.chat st) = Chat.Sending
    /\ Ui.inflight st = 1%nat
    /\ Ui.step st (Ui.ClickSend Sample.user_stamp) = Some st
    /\ Ui.step st (Ui.SelectExample (js "What causes acne?") Sample.user_stamp)
       = None.
Proof.
  destruct (Ui.run Ui.initial Sample.typing_then_send) as [st|] eqn:Hrun;
    [|discriminate Hrun].
  exists st.
  assert (Hs : Chat.status_of (Ui.chat st) = Chat.Sending).
  { vm_compute in Hrun. injection Hrun as <-. reflexivity. }
  destruct (C2_single_flight st (ex_intro _ Sample.typing_then_send Hrun))
    as (_ & Hin & Hnoop).
  destruct (Hnoop Hs) as (Hclick & _ & Hex).
  split; [reflexivity|]. split; [exact Hs|].
  split; [rewrite Hin; apply status_of_sending in Hs; rewrite Hs; reflexivity|].
  split; [apply Hclick | apply Hex].
Defined.

(** C7: over every sequence of page events, [lastDetectedLanguage] ends
    as the language of the last settled query that is a success with a
    non-empty [detected_language], or as it was when there is none; so
    it differs from its old value only through such a success, and once
    set it is never cleared, neither by a success without a language
    nor by a failure. *)
Theorem C7_last_detected_language
    (st st' : Ui.State) (evs : list Ui.Event) :
  Ui.run st evs = Some st' ->
  let before := Chat.lastDetectedLanguage (Ui.chat st) in
  let after := Chat.lastDetectedLanguage (Ui.chat st') in
  after = language_after evs before
  /\ (after <> before ->
      exists r s lang,
        In (Ui.Settle (Resolved r) s) evs
        /\ Chat.is_success r = true
        /\ detected_language r = Some lang
        /\ truthy lang = true
        /\ after = Some lang)
  /\ (before <> None -> after <> None).
Proof.
  intros Hrun before after.
  assert (Ha : after = language_after evs before) by (apply run_language; exact Hrun).
  split; [exact Ha|]. split.
  - intros Hne. rewrite Ha in *.
    destruct (language_after_cases evs before)
      as [H|(settled & s & lang & Hin & Hc & H)]; [contradiction|].
    destruct (carried_language_inv settled lang Hc) as (r & -> & Hs & Hl & Ht).
    exists r, s, lang. auto.
  - intros Hb. rewrite Ha. apply language_after_kept. exact Hb.
Qed.

(** C7 at work: Spanish is detected by the first exchange of the
    sample session and is still there after the failure of the
    second. *)
Lemma C7_last_detected_language_witness :
  exists st' : Ui.State,
    Ui.run Ui.initial Sample.session = Some st'
    /\ Chat.lastDetectedLanguage (Ui.chat st') = Some (js "Spanish")
    /\ Chat.lastDetectedLanguage (Ui.chat st')
       = language_after Sample.session None.
Proof.
  destruct (Ui.run Ui.initial Sample.session) as [st'|] eqn:Hrun;
    [|discriminate Hrun].
  exists st'.
  destruct (C7_last_detected_language Ui.initial st' Sample.session Hrun)
    as (Ha & _).
  split; [reflexivity|]. split; [|exact Ha].
  rewrite Ha. reflexivity.
Defined.

(** C10: [ChatInput.handleSend] calls [onSendMessage] only with a
    trimmed text that is not empty and only while [loading] is false,
    and the text it passes is the trimmed value of the input; a key
    press sends only through [handleSend], on Enter; with the value of
    the input kept within [maxLength], as it is in every state the page
    can reach, the text passed on has at most 500 code units.
    [handleSelectQuery] is [handleSendMessage] itself, which echoes and
    sends whatever it is given, in whatever state. *)
Theorem C10_chat_input_guard
    (loading : bool) (message text rest : jsstring) :
  ChatInput.handleSend loading message = (Some text, rest) ->
  text = trim message
  /\ truthy text = true
  /\ loading = false
  /\ rest = []
  /\ ((List.length message <= ChatInput.maxLength)%nat ->
      (List.length text <= 500)%nat)
  /\ (forall st, Ui.reachable st ->
        (List.length (Ui.input st) <= ChatInput.maxLength)%nat)
  /\ (forall key text' rest',
        ChatInput.handleKeyPress key loading message = (Some text', rest') ->
        key = js "Enter" /\ text' = text)
  /\ (forall T su sb query st,
        Chat.handleSelectQuery T su sb query st
        = Chat.handleSendMessage T su sb query st)
  /\ (forall su query st,
        Chat.messages (fst (Chat.handleSendMessage_begin su query st))
        = Chat.messages st
          ++ [Chat.mkMessage (Chat.fresh_id su) query true (Chat.now su)]
        /\ snd (Chat.handleSendMessage_begin su query st)
           = mkRequest query (Some (js "web_user"))).
Proof.
  intros H.
  destruct (handleSend_cases loading message) as [(H1 & Ht & Hl)|H1];
    rewrite H1 in H; [|discriminate].
  injection H as <- <-.
  split; [reflexivity|]. split; [exact Ht|]. split; [exact Hl|].
  split; [reflexivity|]. split.
  { intros Hlen. pose proof (trim_length message).
    unfold ChatInput.maxLength in Hlen. lia. }
  split; [intros st Hr; exact (reachable_input_bounded st Hr)|].
  split.
  { intros key text' rest' Hk.
    destruct (handleKeyPress_cases key loading message) as [[Hk' He]|Hk'];
      rewrite Hk' in Hk; [|discriminate].
    rewrite H1 in Hk. injection Hk as <- _. split; [exact He | reflexivity]. }
  split; [reflexivity|].
  intros su query st. split; reflexivity.
Qed.

(** C10 at work: the input holds a question with blanks around it, and
    nothing is loading. *)
Lemma C10_chat_input_guard_witness :
  js "Tell me about asthma" = trim (js "  Tell me about asthma ")
  /\ truthy (js "Tell me about asthma") = true
  /\ (List.length (js "Tell me about asthma") <= 500)%nat.
Proof.
  destruct (C10_chat_input_guard false (js "  Tell me about asthma ")
              (js "Tell me about asthma") [] eq_refl)
    as (Htrim & Ht & _ & _ & Hlen & _).
  split; [exact Htrim|]. split; [exact Ht|].
  apply Hlen. vm_compute.
  repeat constructor.
Defined.

(* ===================================================================== *)
(** ** More on the gateway *)
(* ===================================================================== *)

Section GatewayMore.

Import ApiClient ApiClientRest.

#[local] Arguments N.ltb : simpl never.
#[local] Arguments N.leb : simpl never.
#[local] Arguments N.add : simpl never.
#[local] Arguments js : simpl never.
#[local] Arguments includes : simpl never.
#[local] Arguments JsString.eqb : simpl never.
#[local] Arguments ofN : simpl never.

Ltac run_async :=
  cbv beta iota zeta delta
    [bind catch await log json ok throw ret fetchWithTimeout_catch
     AbortError outcome trace elapsed body http_status].

(** How [fetchWithTimeout] ends, case by case. *)
Lemma fetchWithTimeout_cases (net : Promise Response) (timeout : N) :
  (exists t r, net = Settles t (Resolved r) /\ t <= timeout
               /\ fetchWithTimeout net timeout
                  = mkRun [EvFetch timeout] t (Returned r))
  \/ (exists t e, t <= timeout
                  /\ fetchWithTimeout net timeout
                     = mkRun [EvFetch timeout] t (Threw e)).
Proof.
  unfold fetchWithTimeout, fetch.
  destruct net as [t [r|[e|]]|]; try destruct (timeout <? t) eqn:Hlt;
    try apply N.ltb_ge in Hlt; run_async;
    repeat match goal with
    | |- context [if ?c then _ else _] => destruct c eqn:?; run_async
    end;
    try (left; do 2 eexists; split; [reflexivity|]; split; [exact Hlt|];
         f_equal; lia);
    right; do 2 eexists; refine (conj _ eq_refl); lia.
Qed.

(** [fetchWithTimeout] never stays pending and never outlasts its
    deadline: it issues one network call and, by the deadline at the
    latest, returns the response the network gave or throws; and a
    response it returns is one that arrived by the deadline, at the
    time it arrived. *)
Theorem fetchWithTimeout_settles_by_deadline
    (net : Promise Response) (timeout : N) :
  let run := fetchWithTimeout net timeout in
  trace run = [EvFetch timeout]
  /\ outcome run <> Pending
  /\ elapsed run <= timeout
  /\ (forall r, outcome run = Returned r ->
        net = Settles (elapsed run) (Resolved r)).
Proof.
  intros run. unfold run.
  destruct (fetchWithTimeout_cases net timeout)
    as [(t & r & Hn & Ht & ->)|(t & e & Ht & ->)]; simpl.
  - repeat split; try discriminate; try exact Ht.
    intros r' H. injection H as <-. exact Hn.
  - repeat split; try discriminate; exact Ht.
Qed.

(** When the deadline of the first attempt expires and the second
    attempt returns an answer, [query] returns that answer, after two
    network calls with the retry delay between them, 32,000 ms plus the
    time of the second attempt after it was called. *)
Theorem query_recovers_after_timeout
    (T : Transport) (request : QueryRequest) (a : QueryResponse) :
  deadline_expires (T request 1) 30000 = true ->
  outcome (query_try T request 2) = Returned a ->
  query T request
  = mkRun [EvFetch 30000; EvDelay 2000; EvFetch 60000]
          (32000 + elapsed (query_try T request 2)) (Returned a).
Proof.
  intros H1 H2.
  pose proof (query_try_deadline T request 1 H1) as E1.
  change (timeout_of 1) with 30000 in E1.
  pose proof (query_trace T request) as Htr.
  pose proof (query_elapsed T request) as Hel.
  pose proof (query_outcome T request) as Hout.
  rewrite E1 in Htr, Hel, Hout. simpl in Htr, Hel, Hout. rewrite H2 in Hout.
  destruct (query T request) as [tr el out]. simpl in *. subst.
  f_equal; lia.
Qed.

(** The theorem above at work: no answer to the first attempt, a good
    answer 80 ms into the second. *)
Lemma query_recovers_after_timeout_witness :
  query Sample.silent_then_success Sample.request
  = mkRun [EvFetch 30000; EvDelay 2000; EvFetch 60000]
          (32000 + elapsed (query_try Sample.silent_then_success Sample.request 2))
          (Returned Sample.success_body).
Proof.
  apply (query_recovers_after_timeout Sample.silent_then_success
           Sample.request Sample.success_body); reflexivity.
Defined.

(** When the deadlines of both attempts expire, [query] throws the
    taking-longer message exactly 92,000 ms after it was called, and a
    third network call is never made. *)
Theorem query_gives_up_after_two_timeouts
    (T : Transport) (request : QueryRequest) :
  deadline_expires (T request 1) 30000 = true ->
  deadline_expires (T request 2) 60000 = true ->
  query T request
  = mkRun [EvFetch 30000; EvDelay 2000; EvFetch 60000] 92000
          (Threw (ThrowError (new_Error msg_taking_longer))).
Proof.
  intros H1 H2.
  pose proof (query_try_deadline T request 1 H1) as E1.
  pose proof (query_try_deadline T request 2 H2) as E2.
  change (timeout_of 1) with 30000 in E1.
  change (timeout_of 2) with 60000 in E2.
  pose proof (query_trace T request) as Htr.
  pose proof (query_elapsed T request) as Hel.
  pose proof (query_outcome T request) as Hout.
  rewrite E1 in Htr, Hel, Hout. rewrite E2 in Hel, Hout.
  cbn [outcome elapsed] in Htr, Hel, Hout.
  destruct (query T request) as [tr el out].
  cbn [outcome elapsed trace] in *. subst. reflexivity.
Qed.

(** The theorem above at work, on a network that never answers. *)
Lemma query_gives_up_after_two_timeouts_witness :
  query Sample.silent Sample.request
  = mkRun [EvFetch 30000; EvDelay 2000; EvFetch 60000] 92000
          (Threw (ThrowError (new_Error msg_taking_longer))).
Proof.
  apply (query_gives_up_after_two_timeouts Sample.silent Sample.request);
    reflexivity.
Defined.

(** Whatever [query] throws is an [Error] made by [new Error], with a
    text that is one of the two fixed notices or starts with
    "Failed to send query: "; no error of the network or of the backend
    leaves [query] as it came. *)
Theorem query_throws_only_its_own_errors
    (T : Transport) (request : QueryRequest) (e : Thrown) :
  outcome (query T request) = Threw e ->
  exists m,
    e = ThrowError (new_Error m)
    /\ truthy m = true
    /\ (m = msg_taking_longer
        \/ m = msg_unable_to_connect
        \/ startsWith m (js "Failed to send query: ") = true).
Proof.
  rewrite query_outcome. intros H.
  destruct (outcome (query_try T request 1)); try discriminate.
  destruct (outcome (query_try T request 2)) as [|e2|]; try discriminate.
  injection H as <-. eexists. split; [reflexivity|].
  split; [apply friendly_truthy|]. unfold friendly.
  destruct (_ || _); [left; reflexivity|].
  destruct (_ || _); [right; left; reflexivity|].
  right; right. apply startsWith_app.
Qed.

(** The theorem above at work: HTTP 500 with a plain detail, twice. *)
Lemma query_throws_only_its_own_errors_witness :
  exists m,
    ThrowError (new_Error (js "Failed to send query: Rasa server unavailable"))
    = ThrowError (new_Error m)
    /\ truthy m = true
    /\ (m = msg_taking_longer
        \/ m = msg_unable_to_connect
        \/ startsWith m (js "Failed to send query: ") = true).
Proof.
  apply (query_throws_only_its_own_errors Sample.error_plain Sample.request).
  reflexivity.
Defined.

(** How the [try] block shared by [getDiseases] and [query_try] ends
    once [fetchWithTimeout] has thrown. *)
Lemma getDiseases_after_throw (net : Promise Response) (t : N) (e : Thrown) :
  fetchWithTimeout net default_timeout
  = mkRun [EvFetch default_timeout] t (Threw e) ->
  getDiseases net
  = mkRun [EvFetch default_timeout] t
      (Threw (ThrowError (new_Error
         (js "Failed to fetch diseases: " ++ message (as_Error e))))).
Proof.
  intros H. unfold getDiseases. rewrite H. run_async.
  destruct e as [e|]; run_async; simpl; f_equal; lia.
Qed.

(** [getDiseases] issues exactly one network call, with a deadline of
    60,000 ms, and never a second one; whatever goes wrong, what it
    throws is an [Error] whose text starts with
    "Failed to fetch diseases: "; and it is suspended for at most the
    deadline and the time the body takes to arrive. *)
Theorem getDiseases_single_attempt (net : Promise Response) :
  let run := getDiseases net in
  trace run = [EvFetch 60000]
  /\ (forall e, outcome run = Threw e ->
        exists m,
          e = ThrowError (new_Error (js "Failed to fetch diseases: " ++ m)))
  /\ elapsed run <= 60000 + body_time net 60000.
Proof.
  intros run. unfold run.
  destruct (fetchWithTimeout_cases net default_timeout)
    as [(t & r & Hn & Ht & Hf)|(t & e & Ht & Hf)].
  - assert (Hb : body_time net 60000
                 = match body r with Settles d _ => d | Never => 0 end).
    { unfold body_time, fetch. rewrite Hn.
      apply N.ltb_ge in Ht. unfold default_timeout in Ht. rewrite Ht.
      reflexivity. }
    rewrite Hb. unfold getDiseases. rewrite Hf.
    unfold default_timeout in *. run_async.
    destruct r as [code [d [data|[err|]]|]]; run_async;
      destruct (negb _); run_async; simpl;
      (split; [reflexivity|]); (split; [|lia]);
      intros e H; try discriminate; injection H as <-; eexists; reflexivity.
  - rewrite (getDiseases_after_throw net t e Hf). simpl.
    split; [reflexivity|]. split; [|unfold default_timeout in Ht; lia].
    intros e' H. injection H as <-. eexists. reflexivity.
Qed.

(** [healthCheck] does not read the body of a response that is not ok:
    answered by such a response within the deadline, it throws the
    status line at the moment the headers arrive, whatever the body
    does; [getDiseases], which reads the body for a [detail], stays
    pending when that body never arrives. *)
Theorem healthCheck_ignores_error_body
    (net : Promise Response) (t code : N) (b : Promise QueryResponse) :
  net = Settles t (Resolved (mkHttp code b)) ->
  t <= 60000 ->
  ok (mkHttp code b) = false ->
  healthCheck net
  = mkRun [EvFetch 60000] t
      (Threw (ThrowError (new_Error
         (js "Health check failed: "
          ++ js "HTTP error! status: " ++ ofN code))))
  /\ outcome (getDiseases (Settles t (Resolved (mkHttp code Never)))) = Pending.
Proof.
  intros -> Ht Hok. apply N.ltb_ge in Ht. unfold ok in Hok. simpl in Hok.
  split.
  - unfold healthCheck, fetchWithTimeout, fetch, default_timeout.
    rewrite Ht. run_async. rewrite Hok. run_async. simpl.
    f_equal. lia.
  - unfold getDiseases, fetchWithTimeout, fetch, default_timeout.
    rewrite Ht. run_async. rewrite Hok. run_async. reflexivity.
Qed.

(** The theorem above at work: HTTP 503 after 40 ms, with a body that
    never arrives. *)
Lemma healthCheck_ignores_error_body_witness :
  healthCheck (Settles 40 (Resolved (mkHttp 503 Never)))
  = mkRun [EvFetch 60000] 40
      (Threw (ThrowError (new_Error
         (js "Health check failed: "
          ++ js "HTTP error! status: " ++ ofN 503))))
  /\ outcome (getDiseases (Settles 40 (Resolved (mkHttp 503 Never)))) = Pending.
Proof.
  apply (healthCheck_ignores_error_body _ 40 503 Never eq_refl).
  - lia.
  - reflexivity.
Defined.

(** When no answer comes within 60,000 ms, [getDiseases] and
    [healthCheck] fail at exactly 60,000 ms, each with its prefix in
    front of the timed-out text of [fetchWithTimeout]; neither tries
    again. *)
Theorem rest_methods_time_out (net : Promise Response) :
  deadline_expires net 60000 = true ->
  getDiseases net
  = mkRun [EvFetch 60000] 60000
      (Threw (ThrowError (new_Error
         (js "Failed to fetch diseases: " ++ msg_request_timed_out))))
  /\ healthCheck net
     = mkRun [EvFetch 60000] 60000
         (Threw (ThrowError (new_Error
            (js "Health check failed: " ++ msg_request_timed_out)))).
Proof.
  intros H.
  assert (Hf : fetchWithTimeout net default_timeout
               = mkRun [EvFetch default_timeout] 60000
                   (Threw (ThrowError (new_Error msg_request_timed_out)))).
  { unfold fetchWithTimeout, fetch, default_timeout, deadline_expires in *.
    destruct net as [t s|]; [rewrite H|]; reflexivity. }
  split.
  - apply (getDiseases_after_throw net 60000 _ Hf).
  - unfold healthCheck. rewrite Hf. reflexivity.
Qed.

(** The theorem above at work, on a network call that never settles. *)
Lemma rest_methods_time_out_witness :
  getDiseases Never
  = mkRun [EvFetch 60000] 60000
      (Threw (ThrowError (new_Error
         (js "Failed to fetch diseases: " ++ msg_request_timed_out))))
  /\ healthCheck Never
     = mkRun [EvFetch 60000] 60000
         (Threw (ThrowError (new_Error
            (js "Health check failed: " ++ msg_request_timed_out)))).
Proof.
  apply (rest_methods_time_out Never). reflexivity.
Defined.

End GatewayMore.

(* ===================================================================== *)
(** ** More on the controller and the page *)
(* ===================================================================== *)

Section PageMore.

Import Ui.

(** What one event does to the cells of [Chat] and to the count of
    queries in flight: nothing, the start of a submission (only while
    nothing is loading), the end of one, or the dismissal of the error
    banner. *)
Lemma step_cases (st : State) (ev : Event) (st' : State) :
  step st ev = Some st' ->
  (chat st' = chat st /\ inflight st' = inflight st)
  \/ (exists s text,
        Chat.loading (chat st) = false
        /\ chat st' = fst (Chat.handleSendMessage_begin s text (chat st))
        /\ inflight st' = S (inflight st))
  \/ (exists s r,
        chat st' = Chat.handleSendMessage_resume s r (chat st)
        /\ inflight st = S (inflight st'))
  \/ (chat st' = Chat.setError None (chat st) /\ inflight st' = inflight st).
Proof.
  assert (Hsend : forall s r,
            (fst r = None \/ Chat.loading (chat st) = false) ->
            (chat (after_send s r st) = chat st
             /\ inflight (after_send s r st) = inflight st)
            \/ (exists s0 text,
                  Chat.loading (chat st) = false
                  /\ chat (after_send s r st)
                     = fst (Chat.handleSendMessage_begin s0 text (chat st))
                  /\ inflight (after_send s r st) = S (inflight st))).
  { intros s r Hr. unfold after_send.
    destruct (fst r) as [text|]; [right|left; split; reflexivity].
    destruct Hr as [Hr|Hr]; [discriminate|].
    exists s, text. repeat split. exact Hr. }
  assert (Hguard : fst (ChatInput.handleSend (Chat.loading (chat st)) (input st)) = None
                   \/ Chat.loading (chat st) = false).
  { destruct (handleSend_cases (Chat.loading (chat st)) (input st))
      as [(_ & _ & Hl)|H]; [right; exact Hl | left; rewrite H; reflexivity]. }
  intros Hstep. destruct ev as [value|s|key s|query s|r s|]; simpl in Hstep.
  - destruct (Nat.leb _ _); [|discriminate]. injection Hstep as <-.
    left. split; reflexivity.
  - injection Hstep as <-.
    destruct (Hsend s _ Hguard) as [H|H]; [left; exact H | right; left; exact H].
  - injection Hstep as <-.
    assert (Hk : fst (ChatInput.handleKeyPress key (Chat.loading (chat st)) (input st)) = None
                 \/ Chat.loading (chat st) = false).
    { destruct (handleKeyPress_cases key (Chat.loading (chat st)) (input st))
        as [[Hk _]|Hk]; rewrite Hk; [exact Hguard | left; reflexivity]. }
    destruct (Hsend s _ Hk) as [H|H]; [left; exact H | right; left; exact H].
  - destruct (Chat.examples_rendered (chat st)) eqn:Hr; [|discriminate].
    injection Hstep as <-. right; left. exists s, query.
    unfold Chat.examples_rendered in Hr.
    destruct (Chat.loading (chat st));
      [rewrite andb_false_r in Hr; discriminate|].
    repeat split.
  - destruct (inflight st) as [|n] eqn:Hn; [discriminate|].
    injection Hstep as <-. right; right; left. exists s, r. split; reflexivity.
  - injection Hstep as <-. right; right; right. split; reflexivity.
Qed.

(** An invariant of the page can be proved knowing that at most one
    query is in flight. *)
Lemma reachable_invariant (P : State -> Prop) :
  P initial ->
  (forall st ev st',
     single_flight st -> P st -> step st ev = Some st' -> P st') ->
  forall st, reachable st -> P st.
Proof.
  intros H0 Hstep st [evs Hrun].
  apply (run_invariant (fun x => single_flight x /\ P x)) with (3 := Hrun).
  - intros x ev x' [Hf Hp] Hx. split.
    + apply (step_single_flight x ev); assumption.
    + apply (Hstep x ev); assumption.
  - split; [reflexivity | exact H0].
Qed.

Lemma turns_snoc (k : nat) : turns k ++ [true; false] = turns (S k).
Proof.
  unfold turns. induction k as [|k IH]; [reflexivity|].
  change (List.concat (repeat [true; false] (S k)))
    with ([true; false] ++ List.concat (repeat [true; false] k)).
  rewrite <- app_assoc, IH. reflexivity.
Qed.

(** The conversation is append-only: whatever events happen, the
    entries that were there stay, unchanged and in order, in front of
    the new ones, and each event adds at most one entry. *)
Theorem conversation_is_append_only
    (st st' : State) (evs : list Event) :
  run st evs = Some st' ->
  exists suffix,
    Chat.messages (chat st') = Chat.messages (chat st) ++ suffix
    /\ (List.length suffix <= List.length evs)%nat.
Proof.
  revert st. induction evs as [|ev evs IH]; intros st Hrun; simpl in Hrun.
  - injection Hrun as <-. exists []. rewrite app_nil_r. split; [reflexivity|].
    simpl. lia.
  - destruct (step st ev) as [st1|] eqn:H1; [|discriminate].
    destruct (IH st1 Hrun) as (suffix & Hs & Hl). rewrite Hs.
    destruct (step_cases st ev st1 H1)
      as [[Hc _]|[(s & text & _ & Hc & _)|[(s & r & Hc & _)|[Hc _]]]];
      rewrite Hc.
    + exists suffix. split; [reflexivity | simpl; lia].
    + rewrite begin_messages, <- app_assoc. eexists. split; [reflexivity|].
      simpl. lia.
    + destruct (resume_appends_one s r (chat st)) as (m & Hm & _).
      rewrite Hm, <- app_assoc. eexists. split; [reflexivity|]. simpl. lia.
    + exists suffix. split; [reflexivity | simpl; lia].
Qed.

(** The theorem above at work, on the sample session: four entries
    from six events. *)
Lemma conversation_is_append_only_witness :
  exists st' suffix,
    run initial Sample.session = Some st'
    /\ Chat.messages (chat st') = Chat.messages (chat initial) ++ suffix
    /\ (List.length suffix <= 6)%nat.
Proof.
  destruct (run initial Sample.session) as [st'|] eqn:Hrun;
    [|discriminate Hrun].
  destruct (conversation_is_append_only initial st' Sample.session Hrun)
    as (suffix & Hs & Hl).
  exists st', suffix. split; [reflexivity|]. split; [exact Hs | exact Hl].
Defined.

Lemma step_alternates (st : State) (ev : Event) (st' : State) :
  single_flight st -> alternates st -> step st ev = Some st' -> alternates st'.
Proof.
  unfold single_flight, alternates. intros Hf (k & Hk & Hlen) Hstep.
  destruct (step_cases st ev st' Hstep)
    as [[Hc Hi]|[(s & text & Hl & Hc & Hi)|[(s & r & Hc & Hi)|[Hc Hi]]]].
  - exists k. rewrite Hc, Hi. split; assumption.
  - exists k. rewrite Hc, Hi, begin_messages. rewrite Hl in *.
    rewrite map_app, Hk, app_nil_r, length_app, Hlen, Hf.
    split; [reflexivity | simpl; lia].
  - rewrite Hi in Hf. destruct (Chat.loading (chat st)); [|discriminate].
    injection Hf as Hf.
    destruct (resume_appends_one s r (chat st)) as (m & Hm & Hu).
    exists (S k). rewrite Hc, Hm, map_app, Hk. simpl map. rewrite Hu.
    rewrite <- app_assoc. change ([true] ++ [false]) with [true; false].
    rewrite turns_snoc, length_app, Hlen, Hi, Hf.
    replace (Chat.loading (Chat.handleSendMessage_resume s r (chat st)))
      with false by reflexivity.
    rewrite app_nil_r. split; [reflexivity | simpl; lia].
  - exists k. rewrite Hc, Hi. split; assumption.
Qed.

(** In every state the page can reach, the conversation is a sequence
    of complete exchanges, each a message of the user followed by one
    entry of the assistant, with the message being answered at the end
    while a query is in flight: [2k] entries, or [2k + 1] while
    loading. *)
Theorem conversation_alternates (st : State) :
  reachable st ->
  exists k,
    map Chat.isUser (Chat.messages (chat st))
    = turns k ++ (if Chat.loading (chat st) then [true] else [])
    /\ List.length (Chat.messages (chat st)) = (2 * k + inflight st)%nat.
Proof.
  apply (reachable_invariant alternates).
  - exists 0%nat. split; reflexivity.
  - exact step_alternates.
Qed.

(** The theorem above at work, at the end of the sample session: two
    complete exchanges. *)
Lemma conversation_alternates_witness :
  exists st k,
    run initial Sample.session = Some st
    /\ map Chat.isUser (Chat.messages (chat st))
       = turns k ++ (if Chat.loading (chat st) then [true] else [])
    /\ List.length (Chat.messages (chat st)) = (2 * k + inflight st)%nat.
Proof.
  destruct (run initial Sample.session) as [st|] eqn:Hrun;
    [|discriminate Hrun].
  destruct (conversation_alternates st (ex_intro _ Sample.session Hrun))
    as (k & Hk & Hl).
  exists st, k. split; [reflexivity|]. split; [exact Hk | exact Hl].
Defined.

Lemma step_error_is_last_entry (st : State) (ev : Event) (st' : State) :
  single_flight st -> error_is_last_entry st -> step st ev = Some st' ->
  error_is_last_entry st'.
Proof.
  unfold single_flight, error_is_last_entry. intros Hf Hinv Hstep.
  destruct (step_cases st ev st' Hstep)
    as [[Hc Hi]|[(s & text & Hl & Hc & Hi)|[(s & r & Hc & Hi)|[Hc Hi]]]];
    rewrite Hc.
  - exact Hinv.
  - intros d Hd. discriminate Hd.
  - rewrite Hi in Hf. destruct (Chat.loading (chat st)) eqn:Hl; [|discriminate].
    assert (Hnone : Chat.error (chat st) = None).
    { destruct (Chat.error (chat st)) as [d|] eqn:He; [|reflexivity].
      destruct (Hinv d eq_refl) as [H _]. discriminate H. }
    intros d Hd. split; [reflexivity|].
    destruct r as [r|e].
    + destruct (Chat.is_success r) eqn:Hs.
      * rewrite resume_on_success in Hd by exact Hs. simpl in Hd.
        rewrite Hnone in Hd. discriminate Hd.
      * rewrite resume_on_failure in * by (simpl; rewrite Hs; reflexivity).
        simpl in Hd. injection Hd as <-.
        eexists; eexists. split; [reflexivity|]. split; reflexivity.
    + rewrite resume_on_failure in * by reflexivity.
      simpl in Hd. injection Hd as <-.
      eexists; eexists. split; [reflexivity|]. split; reflexivity.
  - intros d Hd. discriminate Hd.
Qed.

(** In every state the page can reach, an error banner means that
    nothing is loading, that the status is [Error_] with the text of
    the banner, and that the last entry of the conversation is the
    assistant's rendering of the same error, in the form that goes with
    the controls of the banner: the connection notice with the refresh
    button, the plain notice without it. *)
Theorem banner_matches_last_entry
    (st : State) (d : jsstring) (offered : bool) :
  reachable st ->
  ChatView.banner (chat st) = Some (d, offered) ->
  Chat.status_of (chat st) = Chat.Error_ d
  /\ exists prefix m,
       Chat.messages (chat st) = prefix ++ [m]
       /\ Chat.isUser m = false
       /\ Chat.content m
          = if offered
            then Chat.connection_notice ++ d ++ js "*"
            else Chat.sorry_notice ++ d.
Proof.
  intros Hreach Hb.
  pose proof (reachable_invariant error_is_last_entry
                ltac:(intros d' Hd'; discriminate Hd')
                step_error_is_last_entry st Hreach) as Hinv.
  unfold ChatView.banner in Hb.
  destruct (Chat.error (chat st)) as [e|] eqn:He; [|discriminate].
  destruct (truthy e) eqn:Ht; [|discriminate]. injection Hb as <- <-.
  destruct (Hinv e He) as (Hl & prefix & m & Hm & Hu & Hcontent).
  split.
  - unfold Chat.status_of. rewrite Hl, He, Ht. reflexivity.
  - exists prefix, m. split; [exact Hm|]. split; [exact Hu|].
    rewrite Hcontent. reflexivity.
Qed.

(** The theorem above at work, at the end of the sample session, whose
    second query failed with the connection-check message: the banner
    has no refresh button and the last entry is the plain notice. *)
Lemma banner_matches_last_entry_witness :
  exists st prefix m,
    run initial Sample.session = Some st
    /\ Chat.status_of (chat st) = Chat.Error_ ApiClient.msg_unable_to_connect
    /\ Chat.messages (chat st) = prefix ++ [m]
    /\ Chat.content m = Chat.sorry_notice ++ ApiClient.msg_unable_to_connect.
Proof.
  destruct (run initial Sample.session) as [st|] eqn:Hrun;
    [|discriminate Hrun].
  assert (Hb : ChatView.banner (chat st)
               = Some (ApiClient.msg_unable_to_connect, false)).
  { vm_compute in Hrun. injection Hrun as <-. reflexivity. }
  destruct (banner_matches_last_entry st _ _ (ex_intro _ Sample.session Hrun) Hb)
    as (Hs & prefix & m & Hm & _ & Hc).
  exists st, prefix, m. split; [reflexivity|]. split; [exact Hs|].
  split; [exact Hm | exact Hc].
Defined.

Lemma step_fresh_until_first_message (st : State) (ev : Event) (st' : State) :
  single_flight st -> fresh_until_first_message st -> step st ev = Some st' ->
  fresh_until_first_message st'.
Proof.
  unfold single_flight, fresh_until_first_message. intros Hf Hinv Hstep.
  destruct (step_cases st ev st' Hstep)
    as [[Hc Hi]|[(s & text & Hl & Hc & Hi)|[(s & r & Hc & Hi)|[Hc Hi]]]];
    rewrite Hc.
  - exact Hinv.
  - rewrite begin_messages.
    destruct (Chat.messages (chat st)); reflexivity.
  - rewrite Hi in Hf. destruct (Chat.loading (chat st)) eqn:Hl; [|discriminate].
    destruct (resume_appends_one s r (chat st)) as (m & Hm & _). rewrite Hm.
    destruct (Chat.messages (chat st)) as [|x l] eqn:Hmsgs.
    + rewrite Hinv in Hl. discriminate Hl.
    + cbn [app].
      replace (Chat.showExamples (Chat.handleSendMessage_resume s r (chat st)))
        with (Chat.showExamples (chat st)); [exact Hinv|].
      destruct r as [r|e]; [destruct (Chat.is_success r) eqn:Hs|].
      * rewrite resume_on_success by exact Hs. reflexivity.
      * rewrite resume_on_failure by (simpl; rewrite Hs; reflexivity).
        reflexivity.
      * rewrite resume_on_failure by reflexivity. reflexivity.
  - simpl. destruct (Chat.messages (chat st)); [|exact Hinv].
    rewrite Hinv. reflexivity.
Qed.

(** In every state the page can reach, the example buttons are there
    exactly while the conversation is empty, and an empty conversation
    means that nothing has happened to [Chat] yet: no query is in
    flight, and no error and no detected language are set.  So the
    welcome screen never comes back once a message has been sent. *)
Theorem examples_until_first_message (st : State) :
  reachable st ->
  Chat.examples_rendered (chat st)
  = match Chat.messages (chat st) with [] => true | _ :: _ => false end
  /\ ChatView.welcome_shown (chat st) = Chat.examples_rendered (chat st)
  /\ (Chat.messages (chat st) = [] ->
      chat st = Chat.initial /\ inflight st = 0%nat).
Proof.
  intros Hreach.
  pose proof (reachable_invariant fresh_until_first_message eq_refl
                step_fresh_until_first_message st Hreach) as Hinv.
  pose proof (reachable_single_flight st Hreach) as Hf.
  unfold fresh_until_first_message, single_flight in *.
  unfold Chat.examples_rendered, ChatView.welcome_shown.
  destruct (Chat.messages (chat st)) as [|m l].
  - rewrite Hinv in *. simpl in Hf. repeat split; assumption.
  - rewrite Hinv. split; [reflexivity|]. split; [reflexivity|]. discriminate.
Qed.

(** The theorem above at work: the page right after a first
    submission has lost its example buttons. *)
Lemma examples_until_first_message_witness :
  exists st,
    run initial Sample.typing_then_send = Some st
    /\ Chat.examples_rendered (chat st) = false
    /\ ChatView.welcome_shown (chat st) = false.
Proof.
  destruct (run initial Sample.typing_then_send) as [st|] eqn:Hrun;
    [|discriminate Hrun].
  destruct (examples_until_first_message st
              (ex_intro _ Sample.typing_then_send Hrun)) as (He & Hw & _).
  exists st. split; [reflexivity|].
  assert (Hm : Chat.examples_rendered (chat st) = false).
  { rewrite He. vm_compute in Hrun. injection Hrun as <-. reflexivity. }
  split; [exact Hm | rewrite Hw; exact Hm].
Defined.

End PageMore.

(* ===================================================================== *)
(** ** More on what the user sees *)
(* ===================================================================== *)

Section ViewMore.

(** When [query] fails with one of its two fixed notices, the chat
    renders them differently.  The taking-longer notice is recognised
    as a connection problem: the entry of the assistant is the
    connection notice and the banner has the refresh button.  The
    unable-to-connect notice contains none of the three substrings
    [Chat] looks for: the entry is the plain "Sorry" notice, and the
    banner has no refresh button. *)
Theorem chat_renders_gateway_notices
    (T : Transport) (su sb : Chat.Stamp) (text : jsstring) (st : Chat.State)
    (m : jsstring) :
  outcome (ApiClient.query T (mkRequest text (Some (js "web_user"))))
  = Threw (ThrowError (new_Error m)) ->
  exists st' prefix botMessage,
    outcome (Chat.handleSendMessage T su sb text st) = Returned st'
    /\ Chat.messages st' = prefix ++ [botMessage]
    /\ (m = ApiClient.msg_taking_longer ->
        Chat.content botMessage = Chat.connection_notice ++ m ++ js "*"
        /\ ChatView.banner st' = Some (m, true))
    /\ (m = ApiClient.msg_unable_to_connect ->
        Chat.content botMessage = Chat.sorry_notice ++ m
        /\ ChatView.banner st' = Some (m, false)).
Proof.
  intros Hq. unfold Chat.handleSendMessage.
  destruct (Chat.handleSendMessage_begin su text st) as [st1 request] eqn:Hb.
  assert (Hr : request = mkRequest text (Some (js "web_user"))).
  { change request with (snd (st1, request)). rewrite <- Hb. apply begin_request. }
  subst request. cbn [outcome]. rewrite Hq.
  rewrite resume_on_failure by reflexivity. cbn [Chat.errorMessage_of message new_Error].
  eexists; eexists; eexists. split; [reflexivity|].
  split; [reflexivity|]. cbn [Chat.content]. split; intros ->.
  - split; vm_compute; reflexivity.
  - split; vm_compute; reflexivity.
Qed.

(** The theorem above at work: a network that never answers, and the
    taking-longer notice. *)
Lemma chat_renders_gateway_notices_witness :
  exists st' prefix botMessage,
    outcome (Chat.handleSendMessage Sample.silent Sample.user_stamp
               Sample.bot_stamp (js "Tell me about asthma") Chat.initial)
    = Returned st'
    /\ Chat.messages st' = prefix ++ [botMessage]
    /\ Chat.content botMessage
       = Chat.connection_notice ++ ApiClient.msg_taking_longer ++ js "*"
    /\ ChatView.banner st' = Some (ApiClient.msg_taking_longer, true).
Proof.
  destruct (chat_renders_gateway_notices Sample.silent Sample.user_stamp
              Sample.bot_stamp (js "Tell me about asthma") Chat.initial
              ApiClient.msg_taking_longer eq_refl)
    as (st' & prefix & m & Ho & Hm & Ht & _).
  exists st', prefix, m. split; [exact Ho|]. split; [exact Hm|].
  apply Ht. reflexivity.
Defined.

(** An answer that gets the language annotation also sets the "Last
    detected" note of the header, to the same language. *)
Theorem annotated_answer_sets_header_note
    (s : Chat.Stamp) (r : QueryResponse) (st : Chat.State) :
  Chat.is_success r = true ->
  Chat.is_annotated r = true ->
  exists language,
    detected_language r = Some language
    /\ ChatView.last_detected_note
         (Chat.handleSendMessage_resume s (Resolved r) st) = Some language
    /\ exists botMessage,
         Chat.messages (Chat.handleSendMessage_resume s (Resolved r) st)
         = Chat.messages st ++ [botMessage]
         /\ Chat.content botMessage
            = Chat.annotation language ++ Chat.answer r.
Proof.
  intros Hs Ha. rewrite (resume_on_success s r st Hs).
  unfold ChatView.last_detected_note. cbn [Chat.lastDetectedLanguage Chat.messages].
  unfold Chat.responseContent. rewrite Ha.
  unfold Chat.is_annotated in Ha.
  apply andb_true_iff in Ha. destruct Ha as [Ha He].
  apply andb_true_iff in Ha. destruct Ha as [_ Ht]. rewrite Ht.
  destruct (detected_language r) as [l|]; [|discriminate Ht].
  cbn [truthy_opt] in Ht. rewrite Ht, He.
  exists l. split; [reflexivity|]. split; [reflexivity|].
  eexists. split; reflexivity.
Qed.

(** The theorem above at work, on the translated Spanish answer. *)
Lemma annotated_answer_sets_header_note_witness :
  exists language,
    detected_language Sample.spanish_body = Some language
    /\ ChatView.last_detected_note
         (Chat.handleSendMessage_resume Sample.bot_stamp
            (Resolved Sample.spanish_body) Chat.initial) = Some language.
Proof.
  destruct (annotated_answer_sets_header_note Sample.bot_stamp
              Sample.spanish_body Chat.initial eq_refl eq_refl)
    as (l & Hl & Hn & _).
  exists l. split; [exact Hl | exact Hn].
Defined.

(** The send button is disabled exactly when [handleSend] would not
    send; and once [handleSend] has sent, the input is empty, so the
    button is disabled and a second [handleSend] sends nothing,
    whatever [loading] says by then. *)
Theorem send_button_matches_guard (loading : bool) (message : jsstring) :
  (ChatView.send_disabled loading message = true
   <-> fst (ChatInput.handleSend loading message) = None)
  /\ (forall text rest,
        ChatInput.handleSend loading message = (Some text, rest) ->
        forall loading',
          ChatView.send_disabled loading' rest = true
          /\ ChatInput.handleSend loading' rest = (None, rest)).
Proof.
  split.
  - unfold ChatView.send_disabled, ChatInput.handleSend.
    destruct (truthy (trim message)); destruct loading; simpl;
      split; intros H; try reflexivity; discriminate.
  - intros text rest H loading'.
    destruct (handleSend_cases loading message) as [(H1 & _)|H1];
      rewrite H1 in H; [|discriminate].
    injection H as _ <-. split; destruct loading'; reflexivity.
Qed.

Lemma trimStart_head (s : jsstring) :
  trimStart s = []
  \/ exists c r, trimStart s = c :: r /\ isWhiteSpace c = false.
Proof.
  induction s as [|c s IH]; [left; reflexivity|]. simpl.
  destruct (isWhiteSpace c) eqn:Hc; [exact IH|].
  right. exists c, s. split; [reflexivity | exact Hc].
Qed.

Lemma trimStart_fixed (c : code_unit) (r : jsstring) :
  isWhiteSpace c = false -> trimStart (c :: r) = c :: r.
Proof. intros H. simpl. rewrite H. reflexivity. Qed.

Lemma trimStart_keeps_last (l : jsstring) (c : code_unit) :
  isWhiteSpace c = false -> exists u, trimStart (l ++ [c]) = u ++ [c].
Proof.
  intros Hc. induction l as [|x l IH]; simpl.
  - rewrite Hc. exists []. reflexivity.
  - destruct (isWhiteSpace x); [exact IH|]. exists (x :: l). reflexivity.
Qed.

(** A trimmed string is empty, or starts and ends with code units that
    are not white space; trimming it again changes nothing. *)
Lemma trim_shape (s : jsstring) :
  trim s = []
  \/ (exists first tail, trim s = first :: tail /\ isWhiteSpace first = false)
     /\ (exists init last, trim s = init ++ [last] /\ isWhiteSpace last = false)
     /\ trim (trim s) = trim s.
Proof.
  destruct (trimStart_head s) as [H|(c & r & H & Hc)].
  - left. unfold trim, trimEnd. rewrite H. reflexivity.
  - right.
    assert (Hrev : rev (trimStart s) = rev r ++ [c]) by (rewrite H; reflexivity).
    destruct (trimStart_keeps_last (rev r) c Hc) as [u Hu].
    destruct (trimStart_head (rev r ++ [c])) as [Hz|(z0 & w & Hz & Hzc)].
    { rewrite Hz in Hu. destruct u; discriminate Hu. }
    assert (Ht1 : trim s = c :: rev u).
    { unfold trim, trimEnd. rewrite Hrev, Hu, rev_app_distr. reflexivity. }
    assert (Ht2 : trim s = rev w ++ [z0]).
    { unfold trim, trimEnd. rewrite Hrev, Hz. reflexivity. }
    split; [exists c, (rev u); split; assumption|].
    split; [exists (rev w), z0; split; assumption|].
    change (trim (trim s)) with (trimEnd (trimStart (trim s))).
    rewrite Ht1 at 1. rewrite (trimStart_fixed c (rev u) Hc), <- Ht1.
    unfold trimEnd. rewrite Ht2 at 1.
    rewrite rev_app_distr, rev_involutive. cbn [rev app].
    rewrite (trimStart_fixed z0 w Hzc). cbn [rev]. symmetry. exact Ht2.
Qed.

(** The text [handleSend] passes on starts and ends with code units
    that are not white space, and trimming it again changes nothing. *)
Theorem forwarded_text_is_trimmed
    (loading : bool) (message text rest : jsstring) :
  ChatInput.handleSend loading message = (Some text, rest) ->
  (exists first tail, text = first :: tail /\ isWhiteSpace first = false)
  /\ (exists init last, text = init ++ [last] /\ isWhiteSpace last = false)
  /\ trim text = text.
Proof.
  intros H.
  destruct (handleSend_cases loading message) as [(H1 & Ht & _)|H1];
    rewrite H1 in H; [|discriminate].
  injection H as <- _.
  destruct (trim_shape message) as [He|Hs]; [|exact Hs].
  rewrite He in Ht. discriminate Ht.
Qed.

(** The theorem above at work, on a question typed with blanks around
    it. *)
Lemma forwarded_text_is_trimmed_witness :
  (exists first tail,
     js "Tell me about asthma" = first :: tail /\ isWhiteSpace first = false)
  /\ (exists init last,
        js "Tell me about asthma" = init ++ [last] /\ isWhiteSpace last = false)
  /\ trim (js "Tell me about asthma") = js "Tell me about asthma".
Proof.
  apply (forwarded_text_is_trimmed false (js "  Tell me about asthma ")
           (js "Tell me about asthma") []).
  reflexivity.
Defined.

End ViewMore.

(* ===================================================================== *)
(** ** ChatMessage: how a message is laid out *)
(* ===================================================================== *)

Section Layout.

Import ChatMessage.

Lemma split_lines_nonempty (content : jsstring) : split_lines content <> [].
Proof.
  destruct content as [|c rest]; simpl; [discriminate|].
  destruct (c =? 10); [discriminate|].
  destruct (split_lines rest); discriminate.
Qed.

(** Splitting at the line feeds and joining with line feeds gives the
    string back. *)
Lemma join_split (content : jsstring) : join_lines (split_lines content) = content.
Proof.
  induction content as [|c rest IH]; [reflexivity|]. simpl split_lines.
  destruct (c =? 10) eqn:Hc.
  - apply N.eqb_eq in Hc. subst c.
    pose proof (split_lines_nonempty rest) as Hne.
    simpl. destruct (split_lines rest) as [|l ls]; [contradiction|].
    simpl in IH |- *. rewrite IH. reflexivity.
  - pose proof (split_lines_nonempty rest) as Hne.
    destruct (split_lines rest) as [|l ls]; [contradiction|].
    simpl in IH |- *. destruct ls; rewrite <- IH; reflexivity.
Qed.

Lemma split_lines_count (content : jsstring) :
  List.length (split_lines content) = S (count_occ N.eq_dec content 10).
Proof.
  induction content as [|c rest IH]; [reflexivity|]. simpl.
  pose proof (split_lines_nonempty rest) as Hne.
  destruct (N.eqb_spec c 10) as [->|Hc].
  - destruct (N.eq_dec 10 10); [|contradiction]. simpl. rewrite IH. reflexivity.
  - destruct (N.eq_dec c 10); [contradiction|].
    destruct (split_lines rest) as [|l ls]; [contradiction|]. exact IH.
Qed.

Lemma split_lines_no_feed (content : jsstring) :
  Forall (fun l => ~ In 10 l) (split_lines content).
Proof.
  induction content as [|c rest IH]; simpl.
  - constructor; [intros []|constructor].
  - destruct (N.eqb_spec c 10) as [->|Hc].
    + constructor; [intros []|exact IH].
    + destruct (split_lines rest) as [|l ls].
      * constructor; [|constructor]. intros [H|[]]. congruence.
      * inversion IH as [|? ? Hl Hls]; subst. constructor; [|exact Hls].
        intros [H|H]; [congruence | exact (Hl H)].
Qed.

(** The spans of a non-empty list of lines, numbered so that the last
    one has the last index: every span but the last is followed by a
    [<br />]. *)
Lemma map_index_spans (lines : list jsstring) (k n : nat) :
  lines <> [] ->
  n = (k + List.length lines)%nat ->
  let spans := map_index (fun l index => mkSpan l (Nat.ltb index (n - 1))) k lines in
  shown spans = join_lines lines
  /\ map line spans = lines
  /\ List.length (filter br spans) = (List.length lines - 1)%nat.
Proof.
  revert k. induction lines as [|l rest IH]; intros k Hne Hn; [contradiction|].
  destruct rest as [|l' rest'].
  - simpl in *. assert (Hk : Nat.ltb k (n - 1) = false)
      by (apply Nat.ltb_ge; lia).
    rewrite Hk. unfold shown. simpl. rewrite !app_nil_r. auto.
  - assert (Hk : Nat.ltb k (n - 1) = true)
      by (apply Nat.ltb_lt; simpl in Hn; lia).
    assert (Hj : join_lines (l :: l' :: rest')
                 = l ++ [10] ++ join_lines (l' :: rest')) by reflexivity.
    remember (l' :: rest') as tl eqn:Etl.
    assert (Htl : List.length tl = S (List.length rest'))
      by (subst tl; reflexivity).
    destruct (IH (S k) ltac:(subst tl; discriminate)
                ltac:(cbn [List.length] in Hn; lia))
      as (Hs & Hl & Hb).
    cbn [map_index]. rewrite Hk. cbv zeta.
    split; [|split].
    + unfold shown in *. cbn [map List.concat line br].
      rewrite Hs, Hj, <- app_assoc. reflexivity.
    + cbn [map line]. rewrite Hl. reflexivity.
    + cbn [filter br]. cbn [List.length]. rewrite Hb, Htl. lia.
Qed.

(** [formatContent] loses nothing and adds nothing: read with a line
    feed for every [<br />], its spans spell the content; the spans
    are the lines of the content, none of which contains a line feed;
    there is one span more than there are line feeds, and one
    [<br />] for each line feed. *)
Theorem formatContent_round_trip (content : jsstring) :
  shown (formatContent content) = content
  /\ map line (formatContent content) = split_lines content
  /\ Forall (fun s => ~ In 10 (line s)) (formatContent content)
  /\ List.length (formatContent content)
     = S (count_occ N.eq_dec content 10)
  /\ List.length (filter br (formatContent content))
     = count_occ N.eq_dec content 10.
Proof.
  unfold formatContent.
  destruct (map_index_spans (split_lines content) 0
              (List.length (split_lines content))
              (split_lines_nonempty content) eq_refl)
    as (Hs & Hl & Hb).
  cbv zeta in *.
  split; [rewrite Hs; apply join_split|].
  split; [exact Hl|].
  split.
  { apply Forall_map with (f := line) (P := fun l => ~ In 10 l).
    rewrite Hl. apply split_lines_no_feed. }
  split.
  - rewrite <- (length_map line), Hl. apply split_lines_count.
  - rewrite Hb, split_lines_count. simpl. lia.
Qed.

End Layout.

(* ===================================================================== *)
(** ** The theme *)
(* ===================================================================== *)

Section ThemeFacts.

Import Theme.

(** Where a page load ends: the provider is mounted with the saved
    theme, or with the preference of the system when nothing usable is
    saved, and the class and the stored value follow that theme. *)
Lemma page_load_eq (prefersDark : bool) (saved : option jsstring) :
  page_load prefersDark saved
  = let t := or_else saved (if prefersDark then js "dark" else js "light") in
    mkWorld t true (is_dark t) (Some t).
Proof.
  unfold page_load, mount_effect, sync_effect, wrapper_effect, context_theme.
  cbn [theme mounted dark_class stored negb].
  destruct (JsString.eqb _ _); reflexivity.
Qed.

Lemma settled_shape (w : World) :
  settled w ->
  w = mkWorld (js "light") true false (Some (js "light"))
  \/ w = mkWorld (js "dark") true true (Some (js "dark")).
Proof.
  destruct w as [t m c s]. unfold settled. simpl.
  intros (-> & [->| ->] & -> & ->); [left | right]; reflexivity.
Qed.

(** [toggleTheme] always leaves the theme at one of the two values,
    with the class and the stored value in step, even from a theme
    that is neither (any theme other than "light" becomes "light");
    and on a settled world two toggles undo each other. *)
Theorem toggleTheme_settles (w : World) :
  (mounted w = true -> settled (toggleTheme w))
  /\ (theme w <> js "light" -> theme (toggleTheme w) = js "light")
  /\ (settled w -> toggleTheme (toggleTheme w) = w).
Proof.
  split; [|split].
  - intros Hm. unfold settled, toggleTheme. simpl.
    destruct (JsString.eqb (theme w) (js "light")); repeat split; auto.
  - intros Hne. unfold toggleTheme. simpl.
    destruct (JsString.eqb (theme w) (js "light")) eqn:He; [|reflexivity].
    apply eqb_eq in He. contradiction.
  - intros Hs. destruct (settled_shape w Hs) as [-> | ->]; reflexivity.
Qed.

(** The theme survives a reload: from a settled world, a page load
    over what is stored gives the same world back, whatever the system
    prefers, and so does a page load after a toggle. *)
Theorem theme_survives_reload (prefersDark : bool) (w : World) :
  settled w ->
  page_load prefersDark (stored w) = w
  /\ page_load prefersDark (stored (toggleTheme w)) = toggleTheme w.
Proof.
  intros Hs. rewrite !page_load_eq.
  destruct (settled_shape w Hs) as [-> | ->]; destruct prefersDark;
    split; reflexivity.
Qed.

(** The theorem above at work: dark was chosen, the system prefers
    light. *)
Lemma theme_survives_reload_witness :
  page_load false (Some (js "dark"))
  = mkWorld (js "dark") true true (Some (js "dark")).
Proof.
  apply (theme_survives_reload false
           (mkWorld (js "dark") true true (Some (js "dark")))).
  repeat split. right. reflexivity.
Defined.

(** On a first visit (nothing stored, or an empty string) the page
    takes the preference of the system and stores it, so that later
    page loads keep that theme even when the system has changed its
    preference. *)
Theorem first_visit_stores_system_preference
    (prefersDark : bool) (saved : option jsstring) :
  truthy_opt saved = false ->
  let w := page_load prefersDark saved in
  settled w
  /\ theme w = (if prefersDark then js "dark" else js "light")
  /\ stored w = Some (theme w)
  /\ forall prefersDark', page_load prefersDark' (stored w) = w.
Proof.
  intros Hs. cbv zeta. rewrite page_load_eq.
  assert (Ho : or_else saved (if prefersDark then js "dark" else js "light")
               = if prefersDark then js "dark" else js "light").
  { unfold or_else. destruct saved as [s|]; [|reflexivity].
    simpl in Hs. rewrite Hs. reflexivity. }
  rewrite Ho. cbv zeta.
  split; [|split; [reflexivity|split; [reflexivity|]]].
  - unfold settled. simpl. destruct prefersDark; repeat split; auto.
  - intros p'. rewrite page_load_eq. destruct prefersDark, p'; reflexivity.
Qed.

(** The theorem above at work: first visit, the system prefers dark. *)
Lemma first_visit_stores_system_preference_witness :
  theme (page_load true None) = js "dark"
  /\ stored (page_load true None) = Some (js "dark")
  /\ page_load false (stored (page_load true None)) = page_load true None.
Proof.
  destruct (first_visit_stores_system_preference true None eq_refl)
    as (_ & Ht & Hs & Hl).
  split; [exact Ht|]. split; [rewrite Hs, Ht; reflexivity | apply Hl].
Defined.

(** The inline script of the layout sets the class the mounted page
    ends with whenever the stored value is absent, empty, "light" or
    "dark", and whenever the system prefers light.  With any other
    stored text on a system that prefers dark they part: the script
    sets the class, the provider removes it and keeps the stored text
    as its theme, until a toggle makes the theme "light". *)
Theorem inline_script_agrees_with_mount
    (prefersDark : bool) (saved : option jsstring) :
  (truthy_opt saved = false
   \/ saved = Some (js "light") \/ saved = Some (js "dark")
   \/ prefersDark = false ->
   inline_script prefersDark saved false
   = dark_class (page_load prefersDark saved))
  /\ (forall s,
        truthy s = true -> s <> js "light" -> s <> js "dark" ->
        inline_script true (Some s) false = true
        /\ page_load true (Some s) = mkWorld s true false (Some s)
        /\ theme (toggleTheme (page_load true (Some s))) = js "light").
Proof.
  split.
  - rewrite page_load_eq. cbv zeta. cbn [dark_class].
    unfold inline_script, or_else, is_dark.
    intros [H|[-> |[-> | ->]]].
    + destruct saved as [s|]; [|destruct prefersDark; reflexivity].
      simpl in H. rewrite H. destruct s; [|discriminate H].
      destruct prefersDark; reflexivity.
    + destruct prefersDark; reflexivity.
    + destruct prefersDark; reflexivity.
    + destruct saved as [s|]; [|reflexivity].
      destruct (JsString.eqb s (js "dark")) eqn:Hd.
      * apply eqb_eq in Hd. subst s. reflexivity.
      * destruct (JsString.eqb s (js "light")) eqn:Hl.
        { apply eqb_eq in Hl. subst s. reflexivity. }
        destruct (truthy s); [rewrite Hd|]; reflexivity.
  - intros s Ht Hl Hd.
    assert (Hd' : JsString.eqb s (js "dark") = false).
    { destruct (JsString.eqb s (js "dark")) eqn:H; [|reflexivity].
      apply eqb_eq in H. contradiction. }
    assert (Hl' : JsString.eqb s (js "light") = false).
    { destruct (JsString.eqb s (js "light")) eqn:H; [|reflexivity].
      apply eqb_eq in H. contradiction. }
    rewrite page_load_eq. unfold inline_script, or_else, is_dark, toggleTheme.
    rewrite Ht, Hd', Hl'. cbv zeta. cbn [theme]. rewrite Hl'.
    repeat split.
Qed.

(** The theorem above at work: "blue" is stored and the system prefers
    dark. *)
Lemma inline_script_agrees_with_mount_witness :
  inline_script true (Some (js "blue")) false = true
  /\ page_load true (Some (js "blue"))
     = mkWorld (js "blue") true false (Some (js "blue"))
  /\ theme (toggleTheme (page_load true (Some (js "blue")))) = js "light".
Proof.
  apply (proj2 (inline_script_agrees_with_mount true None) (js "blue")).
  - reflexivity.
  - intros H. vm_compute in H. discriminate H.
  - intros H. vm_compute in H. discriminate H.
Defined.

End ThemeFacts.
